(** * Receipt processor: the scoring function and the two handlers of main.go

    The development embeds [receiptPoints], [getReceiptPoints] and
    [postReceipt] of [main.go] together with the parts of the Go standard
    library they call ([strconv.ParseFloat], [math.Mod], [math.Ceil],
    [strings.Trim], [time.Parse], ranging over a string), and proves the
    properties of the scoring rules and of the receipt store.

    Conventions.
    - A Go [string] is a sequence of bytes: Rocq's [string], read as a
      [list ascii] by the library models.
    - Go's [int] is the 64-bit signed integer of a 64-bit platform: a [Z]
      with the wrap-around of every addition written out ([Int.wrap]).
    - A [float64] is a [spec_float] at precision 53 and maximal exponent 1024
      (IEEE 754 binary64, rounding to nearest, ties to even). *)

From Stdlib Require Import ZArith Zquot Lia Bool List Ascii String.
From Stdlib Require Import Floats.SpecFloat.
From stdpp Require Import base option list strings gmap.

Local Open Scope Z_scope.

(* ===================================================================== *)
(** ** Go's [int] on a 64-bit platform *)
(* ===================================================================== *)

Module Int.

Definition min_int : Z := - 2 ^ 63.
Definition max_int : Z := 2 ^ 63 - 1.

(** Two's complement wrap-around of a mathematical integer. *)
Definition wrap (z : Z) : Z := (z + 2 ^ 63) mod 2 ^ 64 - 2 ^ 63.

Definition in_range (z : Z) : Prop := min_int <= z <= max_int.

(** [a + b], [a * b] and [a / b] on [int]; Go's [/] truncates toward
    zero and [%] has the sign of the dividend. *)
Definition add (a b : Z) : Z := wrap (a + b).
Definition mul (a b : Z) : Z := wrap (a * b).
Definition quo (a b : Z) : Z := wrap (Z.quot a b).
Definition rem (a b : Z) : Z := Z.rem a b.

End Int.

(* ===================================================================== *)
(** ** Bytes and strings *)
(* ===================================================================== *)

(** The value of a byte of a string. *)
Definition byte_val (c : ascii) : Z := Z.of_N (N_of_ascii c).

(** [lo <= c && c <= hi] on bytes. *)
Definition byte_between (lo hi c : ascii) : bool :=
  (byte_val lo <=? byte_val c) && (byte_val c <=? byte_val hi).

Definition bytes (s : string) : list ascii := list_ascii_of_string s.

(** [len(s)]: the number of bytes. *)
Definition len (s : list ascii) : Z := Z.of_nat (length s).

(* ===================================================================== *)
(** ** [float64] and the functions of package [math] *)
(* ===================================================================== *)

Module Float64.

Definition prec : Z := 53.
Definition emax : Z := 1024.

Abbreviation float64 := spec_float.

Definition pos_zero : float64 := S754_zero false.
Definition NaN : float64 := S754_nan.
Definition Inf (neg : bool) : float64 := S754_infinity neg.

(** The float64 nearest to [(-1)^neg * m * 2^e], for [m >= 0]. *)
Definition of_binary (neg : bool) (m e : Z) : float64 :=
  match m with
  | Zpos p => binary_round prec emax neg p e
  | _ => S754_zero neg
  end.

(** The float64 nearest to [(-1)^neg * (n / d) * 2^e], for [n >= 0] and
    [d > 0]: the quotient is taken with enough bits to round once. *)
Definition of_quotient (neg : bool) (n d e : Z) : float64 :=
  match n with
  | Zpos _ =>
      let '(q, e', l) := SFdiv_core_binary prec emax n e d 0 in
      binary_round_aux prec emax neg q e' l
  | _ => S754_zero neg
  end.

(** The float64 nearest to [(-1)^neg * m * 10^e]. *)
Definition of_decimal (neg : bool) (m e : Z) : float64 :=
  if 0 <=? e then of_binary neg (m * 10 ^ e) 0
  else of_quotient neg m (10 ^ (- e)) 0.

(** The constants of [receiptPoints]; an untyped Go constant is converted
    to the nearest float64. *)
Definition c_1_00 : float64 := Eval vm_compute in of_decimal false 100 (-2).
Definition c_0_25 : float64 := Eval vm_compute in of_decimal false 25 (-2).
Definition c_0_2 : float64 := Eval vm_compute in of_decimal false 2 (-1).
Definition c_0 : float64 := pos_zero.

(** [x == y] and [x * y] on float64. *)
Definition eqb (x y : float64) : bool := SFeqb x y.
Definition mul (x y : float64) : float64 := SFmul prec emax x y.

(** [math.Mod(x, y)]: the floating-point remainder of [x/y], exact, with
    the sign of [x]. Special cases as documented by package [math]:
    [Mod(±Inf, y) = NaN], [Mod(NaN, y) = NaN], [Mod(x, 0) = NaN],
    [Mod(x, ±Inf) = x], [Mod(x, NaN) = NaN]. *)
Definition Mod (x y : float64) : float64 :=
  match x, y with
  | S754_nan, _ | _, S754_nan => S754_nan
  | S754_infinity _, _ => S754_nan
  | _, S754_zero _ => S754_nan
  | _, S754_infinity _ => x
  | S754_zero _, S754_finite _ _ _ => x
  | S754_finite sx mx ex, S754_finite _ my ey =>
      let e := Z.min ex ey in
      let X := Zpos mx * 2 ^ (ex - e) in
      let Y := Zpos my * 2 ^ (ey - e) in
      of_binary sx (X mod Y) e
  end.

(** [math.Ceil(x)]: the least integer value greater than or equal to [x];
    [Ceil(±0) = ±0], [Ceil(±Inf) = ±Inf], [Ceil(NaN) = NaN]. A negative
    [x > -1] gives [-0]. *)
Definition Ceil (x : float64) : float64 :=
  match x with
  | S754_finite s m e =>
      if 0 <=? e then x
      else
        let q := Zpos m / 2 ^ (- e) in
        let r := Zpos m mod 2 ^ (- e) in
        if s then of_binary true q 0
        else of_binary false (if r =? 0 then q else q + 1) 0
  | _ => x
  end.

(** The integer part of a finite float64, truncated toward zero. *)
Definition trunc (x : float64) : option Z :=
  match x with
  | S754_zero _ => Some 0
  | S754_finite s m e =>
      let a := if 0 <=? e then Zpos m * 2 ^ e else Zpos m / 2 ^ (- e) in
      Some (if s then - a else a)
  | _ => None
  end.

(** The conversion [int(x)]. Go truncates toward zero when the result
    fits in an [int]; otherwise (out of range, infinite, NaN) the language
    leaves the value to the implementation: on amd64 the conversion
    instruction yields the "integer indefinite" value, the least [int]. *)
Definition to_int (x : float64) : Z :=
  match trunc x with
  | Some z => if (Int.min_int <=? z) && (z <=? Int.max_int) then z
              else Int.min_int
  | None => Int.min_int
  end.

End Float64.

(* ===================================================================== *)
(** ** [strconv.ParseFloat(s, 64)] *)
(* ===================================================================== *)

(** The accepted syntax follows the scanner of package [strconv]
    ([special], [readFloat], [underscoreOK]); the value is the one the
    package documents: the nearest float64, ties to even, [±Inf] with
    [ErrRange] when the rounded value is out of range, and [0] with
    [ErrSyntax] when [s] is not well formed. Digits are accumulated exactly
    (the package's fixed-size digit buffers only matter for inputs of several
    hundred significant digits). *)
Module strconv.
Import Float64.

Inductive NumError : Set := ErrSyntax | ErrRange.

(** [lower(c)] is [c | ('x' - 'X')]. *)
Definition lower (c : ascii) : Z := Z.lor (byte_val c) 32.

Definition is_digit (c : ascii) : bool := byte_between "0" "9" c.
Definition is_hex_letter (c : ascii) : bool :=
  (byte_val "a" <=? lower c) && (lower c <=? byte_val "f").

Fixpoint commonPrefixLenIgnoreCase (s prefix : list ascii) : Z :=
  match s, prefix with
  | c :: s', p :: prefix' =>
      let c' := if byte_between "A" "Z" c then byte_val c + 32
                else byte_val c in
      if c' =? byte_val p then 1 + commonPrefixLenIgnoreCase s' prefix'
      else 0
  | _, _ => 0
  end.

(** [special]: the (possibly signed) strings "Inf" and "Infinity" and the
    string "NaN", ignoring case; returns the value and the number of bytes
    consumed. *)
Definition special (s : list ascii) : option (float64 * Z) :=
  let infinity (sign : bool) (nsign : Z) (s : list ascii) :=
    let n := commonPrefixLenIgnoreCase s (bytes "infinity") in
    let n := if (3 <? n) && (n <? 8) then 3 else n in
    if (n =? 3) || (n =? 8) then Some (Inf sign, nsign + n) else None in
  match s with
  | [] => None
  | c :: s' =>
      if Ascii.eqb c "+" || Ascii.eqb c "-" then
        infinity (Ascii.eqb c "-") 1 s'
      else if Ascii.eqb c "i" || Ascii.eqb c "I" then
        infinity false 0 s
      else if Ascii.eqb c "n" || Ascii.eqb c "N" then
        if commonPrefixLenIgnoreCase s (bytes "nan") =? 3
        then Some (NaN, 3) else None
      else None
  end.

(** The state of the digit loop of [readFloat]. *)
Record digits_state : Set := {
  nd : Z;              (* digits seen, leading zeros apart *)
  dp : Z;              (* position of the point *)
  mantissa : Z;
  sawdot : bool;
  sawdigits : bool;
  underscores : bool
}.

Definition digits_init : digits_state :=
  {| nd := 0; dp := 0; mantissa := 0;
     sawdot := false; sawdigits := false; underscores := false |}.

(** The [loop:] of [readFloat]; returns the state and the unread bytes. *)
Fixpoint read_digits (hex : bool) (s : list ascii) (st : digits_state)
  : digits_state * list ascii :=
  match s with
  | [] => (st, [])
  | c :: s' =>
      if Ascii.eqb c "_" then
        read_digits hex s'
          {| nd := nd st; dp := dp st; mantissa := mantissa st;
             sawdot := sawdot st; sawdigits := sawdigits st;
             underscores := true |}
      else if Ascii.eqb c "." then
        if sawdot st then (st, s)
        else
          read_digits hex s'
            {| nd := nd st; dp := nd st; mantissa := mantissa st;
               sawdot := true; sawdigits := sawdigits st;
               underscores := underscores st |}
      else if is_digit c then
        if Ascii.eqb c "0" && (nd st =? 0) then
          read_digits hex s'
            {| nd := nd st; dp := dp st - 1; mantissa := mantissa st;
               sawdot := sawdot st; sawdigits := true;
               underscores := underscores st |}
        else
          read_digits hex s'
            {| nd := nd st + 1; dp := dp st;
               mantissa := mantissa st * (if hex then 16 else 10)
                           + (byte_val c - byte_val "0");
               sawdot := sawdot st; sawdigits := true;
               underscores := underscores st |}
      else if hex && is_hex_letter c then
        read_digits hex s'
          {| nd := nd st + 1; dp := dp st;
             mantissa := mantissa st * 16 + (lower c - byte_val "a" + 10);
             sawdot := sawdot st; sawdigits := true;
             underscores := underscores st |}
      else (st, s)
  end.

(** The digits of the exponent. *)
Fixpoint read_exp_digits (s : list ascii) (e : Z) (us : bool)
  : Z * bool * list ascii :=
  match s with
  | [] => (e, us, [])
  | c :: s' =>
      if is_digit c then
        read_exp_digits s' (e * 10 + (byte_val c - byte_val "0")) us
      else if Ascii.eqb c "_" then read_exp_digits s' e true
      else (e, us, s)
  end.

(** The optional exponent: moves the point [dp]; [None] when it is
    malformed, or missing from a hexadecimal number. *)
Definition read_exponent (hex : bool) (s : list ascii) (dp : Z) (us : bool)
  : option (Z * bool * list ascii) :=
  let expChar := if hex then byte_val "p" else byte_val "e" in
  let no_exponent := if hex then None else Some (dp, us, s) in
  match s with
  | [] => no_exponent
  | c :: s1 =>
      if lower c =? expChar then
        match s1 with
        | [] => None
        | d :: s2 =>
            let esign := if Ascii.eqb d "-" then -1 else 1 in
            let s3 := if Ascii.eqb d "+" || Ascii.eqb d "-" then s2
                      else s1 in
            match s3 with
            | [] => None
            | d1 :: _ =>
                if is_digit d1 then
                  let '(e, us', s4) := read_exp_digits s3 0 us in
                  Some (dp + e * esign, us', s4)
                else None
            end
        end
      else no_exponent
  end.

Fixpoint underscoreOK_loop (hex : bool) (s : list ascii) (saw : ascii)
  : bool :=
  match s with
  | [] => negb (Ascii.eqb saw "_")
  | c :: s' =>
      if is_digit c || (hex && is_hex_letter c) then
        underscoreOK_loop hex s' "0"
      else if Ascii.eqb c "_" then
        if negb (Ascii.eqb saw "0") then false
        else underscoreOK_loop hex s' "_"
      else if Ascii.eqb saw "_" then false
      else underscoreOK_loop hex s' "!"
  end.

(** [underscoreOK]: underscores only between digits, or after a base
    prefix. *)
Definition underscoreOK (s : list ascii) : bool :=
  let s := match s with
           | c :: s' => if Ascii.eqb c "-" || Ascii.eqb c "+" then s' else s
           | [] => s
           end in
  match s with
  | a :: b :: s' =>
      if Ascii.eqb a "0" &&
         ((lower b =? byte_val "b") || (lower b =? byte_val "o")
          || (lower b =? byte_val "x"))
      then underscoreOK_loop (lower b =? byte_val "x") s' "0"
      else underscoreOK_loop false s "^"
  | _ => underscoreOK_loop false s "^"
  end.

(** What [readFloat] returns when it succeeds: the sign, the base, the
    mantissa, the exponent (of 2 for a hexadecimal number, of 10
    otherwise) and the bytes it did not read. *)
Record float_parts : Set := {
  neg : bool;
  hex : bool;
  mant : Z;
  exp : Z;
  rest : list ascii
}.

Definition readFloat (s : list ascii) : option float_parts :=
  match s with
  | [] => None
  | c0 :: s0 =>
      let neg := Ascii.eqb c0 "-" in
      let s1 := if Ascii.eqb c0 "+" || Ascii.eqb c0 "-" then s0 else s in
      let hex := match s1 with
                 | a :: b :: _ :: _ =>
                     Ascii.eqb a "0" && (lower b =? byte_val "x")
                 | _ => false
                 end in
      let s2 := if hex then skipn 2 s1 else s1 in
      let '(st, s3) := read_digits hex s2 digits_init in
      if negb (sawdigits st) then None
      else
        let dp0 := if sawdot st then dp st else nd st in
        let dp1 := if hex then dp0 * 4 else dp0 in
        let ndMant := if hex then nd st * 4 else nd st in
        match read_exponent hex s3 dp1 (underscores st) with
        | None => None
        | Some (dp2, us, s4) =>
            let exp := if mantissa st =? 0 then 0 else dp2 - ndMant in
            let read := firstn (length s - length s4) s in
            if us && negb (underscoreOK read) then None
            else Some {| neg := neg; hex := hex; mant := mantissa st;
                         exp := exp; rest := s4 |}
        end
  end.

(** [ParseFloat(s, 64)]: the value and the error ([None] is [nil]). *)
Definition ParseFloat (s : string) : float64 * option NumError :=
  let b := bytes s in
  match special b with
  | Some (f, n) =>
      if n =? len b then (f, None) else (pos_zero, Some ErrSyntax)
  | None =>
      match readFloat b with
      | None => (pos_zero, Some ErrSyntax)
      | Some p =>
          match rest p with
          | _ :: _ => (pos_zero, Some ErrSyntax)
          | [] =>
              let f := if hex p then of_binary (neg p) (mant p) (exp p)
                       else of_decimal (neg p) (mant p) (exp p) in
              match f with
              | S754_infinity _ => (f, Some ErrRange)
              | _ => (f, None)
              end
          end
      end
  end.

End strconv.

(* ===================================================================== *)
(** ** [strings.Trim] *)
(* ===================================================================== *)

Module strings.

Fixpoint trimLeftByte (s : list ascii) (c : ascii) : list ascii :=
  match s with
  | x :: s' => if Ascii.eqb x c then trimLeftByte s' c else s
  | [] => []
  end.

Definition trimRightByte (s : list ascii) (c : ascii) : list ascii :=
  rev (trimLeftByte (rev s) c).

(** [Trim(s, cutset)] for a cutset of one ASCII byte [c], the case
    [receiptPoints] uses: the bytes equal to [c] are removed from both
    ends. *)
Definition Trim (s : list ascii) (c : ascii) : list ascii :=
  trimLeftByte (trimRightByte s c) c.

End strings.

(* ===================================================================== *)
(** ** Ranging over a string: UTF-8 decoding *)
(* ===================================================================== *)

Module utf8.

Definition rune := Z.
Definition RuneError : rune := 65533.

Definition in_byte_range (lo hi : Z) (c : ascii) : bool :=
  (lo <=? byte_val c) && (byte_val c <=? hi).

(** The continuation bits of a byte. *)
Definition low6 (c : ascii) : Z := Z.land (byte_val c) 63.

(** [DecodeRuneInString]: the first rune of [s] and its width in bytes.
    An ill-formed or truncated encoding gives [(RuneError, 1)]. *)
Definition DecodeRune (s : list ascii) : rune * nat :=
  match s with
  | [] => (RuneError, 0%nat)
  | c0 :: t =>
      let b0 := byte_val c0 in
      if b0 <? 128 then (b0, 1%nat)
      else if (194 <=? b0) && (b0 <=? 223) then
        match t with
        | c1 :: _ =>
            if in_byte_range 128 191 c1
            then (Z.lor (Z.shiftl (Z.land b0 31) 6) (low6 c1), 2%nat)
            else (RuneError, 1%nat)
        | _ => (RuneError, 1%nat)
        end
      else if (224 <=? b0) && (b0 <=? 239) then
        let lo := if b0 =? 224 then 160 else 128 in
        let hi := if b0 =? 237 then 159 else 191 in
        match t with
        | c1 :: c2 :: _ =>
            if in_byte_range lo hi c1 && in_byte_range 128 191 c2
            then (Z.lor (Z.shiftl (Z.land b0 15) 12)
                    (Z.lor (Z.shiftl (low6 c1) 6) (low6 c2)), 3%nat)
            else (RuneError, 1%nat)
        | _ => (RuneError, 1%nat)
        end
      else if (240 <=? b0) && (b0 <=? 244) then
        let lo := if b0 =? 240 then 144 else 128 in
        let hi := if b0 =? 244 then 143 else 191 in
        match t with
        | c1 :: c2 :: c3 :: _ =>
            if in_byte_range lo hi c1 && in_byte_range 128 191 c2
               && in_byte_range 128 191 c3
            then (Z.lor (Z.shiftl (Z.land b0 7) 18)
                    (Z.lor (Z.shiftl (low6 c1) 12)
                       (Z.lor (Z.shiftl (low6 c2) 6) (low6 c3))), 4%nat)
            else (RuneError, 1%nat)
        | _ => (RuneError, 1%nat)
        end
      else (RuneError, 1%nat)
  end.

(** The runes of [for _, char := range s], in order: each iteration
    decodes one rune and advances by its width; [skip] counts the bytes of
    the current rune still to pass over. *)
Fixpoint range_from (skip : nat) (s : list ascii) : list rune :=
  match s with
  | [] => []
  | _ :: s' =>
      match skip with
      | S k => range_from k s'
      | O => let '(r, w) := DecodeRune s in r :: range_from (w - 1) s'
      end
  end.

Definition range (s : string) : list rune := range_from 0 (bytes s).

End utf8.

(* ===================================================================== *)
(** ** [time.Parse] *)
(* ===================================================================== *)

Module time.

(** The elements [nextStdChunk] finds in the two layouts of
    [receiptPoints]: a literal byte of the layout, or a field. *)
Inductive chunk : Set :=
| lit (c : ascii)
| stdLongYear        (* "2006" *)
| stdZeroMonth       (* "01" *)
| stdZeroDay         (* "02" *)
| stdHour            (* "15" *)
| stdZeroMinute.     (* "04" *)

(** The layout "2006-01-02". *)
Definition layout_date : list chunk :=
  [stdLongYear; lit "-"; stdZeroMonth; lit "-"; stdZeroDay].

(** The layout "15:04". *)
Definition layout_clock : list chunk :=
  [stdHour; lit ":"; stdZeroMinute].

(** The fields of the time being constructed by [parse]. *)
Record Time : Set := {
  year : Z;
  month : Z;
  day : Z;
  hour : Z;
  min : Z
}.

Definition Day (t : Time) : Z := day t.
Definition Hour (t : Time) : Z := hour t.
Definition Minute (t : Time) : Z := min t.

Definition isDigit (s : list ascii) (i : nat) : bool :=
  match nth_error s i with
  | Some c => byte_between "0" "9" c
  | None => false
  end.

Definition digit (c : ascii) : Z := byte_val c - byte_val "0".

(** [getnum]: a 1- or 2-digit number; 2 digits are required if [fixed]. *)
Definition getnum (s : list ascii) (fixed : bool)
  : option (Z * list ascii) :=
  match s with
  | a :: t =>
      if negb (isDigit s 0) then None
      else if negb (isDigit s 1) then
        if fixed then None else Some (digit a, t)
      else
        match t with
        | b :: t' => Some (digit a * 10 + digit b, t')
        | [] => None
        end
  | [] => None
  end.

(** [leadingInt]: the leading digits of [s] as a number, and the rest. *)
Fixpoint leadingInt (s : list ascii) (x : Z) : option (Z * list ascii) :=
  match s with
  | c :: s' =>
      if byte_between "0" "9" c then
        if 2 ^ 63 / 10 <? x then None
        else
          let x' := x * 10 + digit c in
          if 2 ^ 63 <? x' then None else leadingInt s' x'
      else Some (x, s)
  | [] => Some (x, [])
  end.

(** [atoi]: an optionally signed decimal number, with nothing after. *)
Definition atoi (s : list ascii) : option Z :=
  let neg := match s with c :: _ => Ascii.eqb c "-" | [] => false end in
  let s' := match s with
            | c :: t => if Ascii.eqb c "-" || Ascii.eqb c "+" then t else s
            | [] => s
            end in
  match leadingInt s' 0 with
  | Some (q, []) => Some (if neg then - q else q)
  | _ => None
  end.

Definition isLeap (year : Z) : bool :=
  (Z.rem year 4 =? 0) &&
  (negb (Z.rem year 100 =? 0) || (Z.rem year 400 =? 0)).

Definition daysIn (m year : Z) : Z :=
  if m =? 2 then (if isLeap year then 29 else 28)
  else if (m =? 4) || (m =? 6) || (m =? 9) || (m =? 11) then 30
  else 31.

(** One iteration of the loop of [parse] for each element of the layout;
    [None] is a parse error (a field that is not a number, out of range,
    or a literal that does not match). *)
Fixpoint parse_chunks (layout : list chunk) (value : list ascii) (t : Time)
  : option (Time * list ascii) :=
  match layout with
  | [] => Some (t, value)
  | lit c :: layout' =>
      match value with
      | v :: value' =>
          if Ascii.eqb v c then parse_chunks layout' value' t else None
      | [] => None
      end
  | stdLongYear :: layout' =>
      if (len value <? 4) || negb (isDigit value 0) then None
      else
        match atoi (firstn 4 value) with
        | Some y =>
            parse_chunks layout' (skipn 4 value)
              {| year := y; month := month t; day := day t;
                 hour := hour t; min := min t |}
        | None => None
        end
  | stdZeroMonth :: layout' =>
      match getnum value true with
      | Some (m, value') =>
          if (m <=? 0) || (12 <? m) then None
          else parse_chunks layout' value'
                 {| year := year t; month := m; day := day t;
                    hour := hour t; min := min t |}
      | None => None
      end
  | stdZeroDay :: layout' =>
      match getnum value true with
      | Some (d, value') =>
          parse_chunks layout' value'
            {| year := year t; month := month t; day := d;
               hour := hour t; min := min t |}
      | None => None
      end
  | stdHour :: layout' =>
      match getnum value false with
      | Some (h, value') =>
          if (h <? 0) || (24 <=? h) then None
          else parse_chunks layout' value'
                 {| year := year t; month := month t; day := day t;
                    hour := h; min := min t |}
      | None => None
      end
  | stdZeroMinute :: layout' =>
      match getnum value true with
      | Some (m, value') =>
          if (m <? 0) || (60 <=? m) then None
          else parse_chunks layout' value'
                 {| year := year t; month := month t; day := day t;
                    hour := hour t; min := m |}
      | None => None
      end
  end.

(** [Parse(layout, value)]: the fields are parsed in turn, no text may
    remain, a missing month or day is 1, and the day must exist in the
    month. [None] stands for a non-nil error. *)
Definition Parse (layout : list chunk) (value : string) : option Time :=
  let t0 := {| year := 0; month := -1; day := -1; hour := 0; min := 0 |} in
  match parse_chunks layout (bytes value) t0 with
  | Some (t, []) =>
      let m := if month t <? 0 then 1 else month t in
      let d := if day t <? 0 then 1 else day t in
      if (d <? 1) || (daysIn m (year t) <? d) then None
      else Some {| year := year t; month := m; day := d;
                   hour := hour t; min := min t |}
  | _ => None
  end.

End time.

(* ===================================================================== *)
(** ** main.go: the data model *)
(* ===================================================================== *)

Import Float64.

(** Item holds the description and price of an item of a receipt. *)
Record Item : Set := {
  ShortDescription : string;
  Price : string
}.

(** Receipt holds the retailer, purchase date, purchase time, total and
    items of a receipt. *)
Record Receipt : Set := {
  Retailer : string;
  PurchaseDate : string;
  PurchaseTime : string;
  Total : string;
  Items : list Item
}.

(* ===================================================================== *)
(** ** main.go: [receiptPoints] *)
(* ===================================================================== *)

(** Each block of [receiptPoints] is a function of the running value of
    [points]; the function itself chains them in the order of the source.
    The two [log.Println] calls only write to the log. *)

(** The condition of the retailer loop on one rune. *)
Definition isAlphanumeric (char : utf8.rune) : bool :=
  ((byte_val "a" <=? char) && (char <=? byte_val "z"))
  || ((byte_val "A" <=? char) && (char <=? byte_val "Z"))
  || ((byte_val "0" <=? char) && (char <=? byte_val "9")).

(** Alphanumeric retailer character check. *)
Definition retailerCheck (retailer : string) (points : Z) : Z :=
  fold_left
    (fun points char =>
       if isAlphanumeric char then Int.add points 1 else points)
    (utf8.range retailer) points.

(** Receipt total checks. The first test, on the parsed total. *)
Definition roundDollarCheck (receiptTotal : float64) (points : Z) : Z :=
  if Float64.eqb (Mod receiptTotal c_1_00) c_0
  then Int.add points 50 else points.

(** The second test, on the parsed total. *)
Definition quarterCheck (receiptTotal : float64) (points : Z) : Z :=
  if Float64.eqb (Mod receiptTotal c_0_25) c_0
  then Int.add points 25 else points.

(** The total is parsed once and the error of [ParseFloat] is discarded
    ([receiptTotal, _ := ...]); the two tests follow. *)
Definition totalChecks (total : string) (points : Z) : Z :=
  let receiptTotal := fst (strconv.ParseFloat total) in
  let points := roundDollarCheck receiptTotal points in
  let points := quarterCheck receiptTotal points in
  points.

(** Receipt items check. *)
Definition itemsCheck (items : list Item) (points : Z) : Z :=
  Int.add points (Int.mul 5 (Int.quo (Z.of_nat (length items)) 2)).

(** The body of the item description loop for one item. *)
Definition descriptionStep (points : Z) (currItem : Item) : Z :=
  if Int.rem (len (strings.Trim (bytes (ShortDescription currItem)) " ")) 3
     =? 0
  then
    let currPrice := fst (strconv.ParseFloat (Price currItem)) in
    Int.add points (to_int (Ceil (Float64.mul currPrice c_0_2)))
  else points.

(** Item description check. *)
Definition descriptionCheck (items : list Item) (points : Z) : Z :=
  fold_left descriptionStep items points.

(** The points after the date check, given the parsed date. *)
Definition dateCheck (receiptDate : time.Time) (points : Z) : Z :=
  if negb (Int.rem (time.Day receiptDate) 2 =? 0)
  then Int.add points 6 else points.

(** The points after the time check, given the parsed time. *)
Definition timeCheck (receiptTime : time.Time) (points : Z) : Z :=
  if (14 <=? time.Hour receiptTime) && (time.Hour receiptTime <? 16) then
    if (time.Hour receiptTime =? 14) && (0 <? time.Minute receiptTime)
    then Int.add points 10
    else Int.add points 10
  else points.

Definition receiptPoints (receipt : Receipt) : Z :=
  let points := 0 in
  let points := retailerCheck (Retailer receipt) points in
  let points := totalChecks (Total receipt) points in
  let points := itemsCheck (Items receipt) points in
  let points := descriptionCheck (Items receipt) points in
  match time.Parse time.layout_date (PurchaseDate receipt) with
  | None => 0
  | Some receiptDate =>
      let points := dateCheck receiptDate points in
      match time.Parse time.layout_clock (PurchaseTime receipt) with
      | None => 0
      | Some receiptTime => timeCheck receiptTime points
      end
  end.

(* ===================================================================== *)
(** ** main.go: the receipt store and the two handlers *)
(* ===================================================================== *)

(** The JSON object a handler answers with ([gin.H]). *)
Inductive body : Set :=
| H_points (points : Z)          (* {"points": ...} *)
| H_message (message : string)   (* {"message": ...} *)
| H_id (id : string).            (* {"id": ...} *)

Record response : Set := {
  status : Z;
  json : body
}.

Definition StatusOK : Z := 200.
Definition StatusCreated : Z := 201.
Definition StatusBadRequest : Z := 400.
Definition StatusNotFound : Z := 404.

(** [var receipts = make(map[string]Receipt)]: the store is the global map;
    the handlers are modelled one request at a time. *)

(** Checks if the receipt exists and answers not found if it does not;
    otherwise answers with the points of the receipt. [receiptId] is
    [c.Param("id")]. *)
Definition getReceiptPoints (receipts : gmap string Receipt)
  (receiptId : string) : response :=
  match receipts !! receiptId with
  | Some currReceipt =>
      {| status := StatusOK; json := H_points (receiptPoints currReceipt) |}
  | None =>
      {| status := StatusNotFound; json := H_message "Receipt not found" |}
  end.

(** The state of the server between two requests: the store, and how many
    identifiers [uuid.New] has produced so far. *)
Record server : Type := {
  receipts : gmap string Receipt;
  drawn : nat
}.

Section Submission.

(** [uuid.New()] draws a random identifier. The draws of a run are an
    arbitrary sequence: [uuids k] is the [String()] of the [k]-th
    identifier drawn. *)
Variable uuids : nat -> string.

(** The loop of [postReceipt] that draws again while the identifier is a
    key of the store. [receiptGuid] is the draw number [k]. The loop has
    no bound in the source; [fuel] bounds the number of iterations here,
    and [None] means that it was not enough. On exit the result is the
    identifier and the number of draws made. *)
Fixpoint freshGuid (fuel : nat) (receipts : gmap string Receipt) (k : nat)
  : option (string * nat) :=
  match fuel with
  | O => None
  | S fuel' =>
      match receipts !! uuids k with
      | Some _ => freshGuid fuel' receipts (S k)
      | None => Some (uuids k, S k)
      end
  end.

(** Creates the receipt and adds it to the collection if it is valid.
    [bound] is the outcome of [c.BindJSON(&newReceipt)]: the error message,
    or the receipt decoded from the request. *)
Definition postReceipt (fuel : nat) (sv : server)
  (bound : string + Receipt) : option (response * server) :=
  match bound with
  | inl err =>
      Some ({| status := StatusBadRequest; json := H_message err |}, sv)
  | inr newReceipt =>
      match freshGuid fuel (receipts sv) (drawn sv) with
      | None => None
      | Some (receiptGuid, k) =>
          Some ({| status := StatusCreated; json := H_id receiptGuid |},
                {| receipts := <[receiptGuid := newReceipt]> (receipts sv);
                   drawn := k |})
      end
  end.

(** A sequence of submissions of decoded receipts, one after the other;
    the result lists the identifiers answered, in order. *)
Fixpoint submitAll (fuel : nat) (sv : server) (rs : list Receipt)
  : option (list string * server) :=
  match rs with
  | [] => Some ([], sv)
  | r :: rs' =>
      match postReceipt fuel sv (inr r) with
      | Some ({| status := _; json := H_id id |}, sv') =>
          match submitAll fuel sv' rs' with
          | Some (ids, sv'') => Some (id :: ids, sv'')
          | None => None
          end
      | _ => None
      end
  end.

End Submission.

(* ===================================================================== *)
(** ** The scoring rules, as the specification words them *)
(* ===================================================================== *)

(** The contribution of each rule as a mathematical integer; the theorems
    below compare their sum with what [receiptPoints] computes. *)

(** Rule 1: one point for every alphanumeric character of the retailer. *)
Definition retailerPoints (retailer : string) : Z :=
  Z.of_nat (length (filter (fun c => isAlphanumeric c = true)
                      (utf8.range retailer))).

(** Rule 2: 50 points when the parsed total has no cents. *)
Definition roundDollarPoints (total : string) : Z :=
  if Float64.eqb (Mod (fst (strconv.ParseFloat total)) c_1_00) c_0
  then 50 else 0.

(** Rule 3: 25 points when the parsed total is a multiple of 0.25. *)
Definition quarterPoints (total : string) : Z :=
  if Float64.eqb (Mod (fst (strconv.ParseFloat total)) c_0_25) c_0
  then 25 else 0.

(** Rule 4: 5 points for every two items. *)
Definition itemCountPoints (items : list Item) : Z :=
  5 * (Z.of_nat (length items) / 2).

(** Rule 5, for one item. *)
Definition itemPoints (it : Item) : Z :=
  if len (strings.Trim (bytes (ShortDescription it)) " ") mod 3 =? 0
  then to_int (Ceil (Float64.mul (fst (strconv.ParseFloat (Price it))) c_0_2))
  else 0.

Definition descriptionPoints (items : list Item) : Z :=
  fold_right (fun it acc => itemPoints it + acc) 0 items.

(** Rule 6: 6 points when the day of the month is odd. *)
Definition datePoints (d : time.Time) : Z :=
  if Z.odd (time.Day d) then 6 else 0.

(** Rule 7: 10 points when the hour is 14 or 15. *)
Definition timePoints (t : time.Time) : Z :=
  if (14 <=? time.Hour t) && (time.Hour t <? 16) then 10 else 0.

(** The sum of the seven contributions, for a parsed date and time. *)
Definition rulesSum (r : Receipt) (d t : time.Time) : Z :=
  retailerPoints (Retailer r)
  + roundDollarPoints (Total r) + quarterPoints (Total r)
  + itemCountPoints (Items r)
  + descriptionPoints (Items r)
  + datePoints d
  + timePoints t.

(** The points accumulated when the time check starts. *)
Definition pointsBeforeTime (r : Receipt) (d : time.Time) : Z :=
  dateCheck d
    (descriptionCheck (Items r)
       (itemsCheck (Items r)
          (totalChecks (Total r) (retailerCheck (Retailer r) 0)))).

(* ===================================================================== *)
(** ** Properties of float64 values *)
(* ===================================================================== *)

(** The shape of a rounded result: the sign asked for, a mantissa of at
    most 53 bits and an exponent of at least -1074. *)
Definition rounded (sx : bool) (x : float64) : Prop :=
  match x with
  | S754_zero s | S754_infinity s => s = sx
  | S754_finite s m e =>
      s = sx /\ Zpos (digits2_pos m) <= 53 /\ -1074 <= e
  | S754_nan => False
  end.

(** A float64 as the operations produce it. *)
Definition wellFormed (x : float64) : Prop :=
  match x with
  | S754_finite _ m e => Zpos (digits2_pos m) <= 53 /\ -1074 <= e
  | _ => True
  end.

(** [c] is the least integer greater than or equal to the value of [x]. *)
Definition ceilingOf (x : float64) (c : Z) : Prop :=
  match x with
  | S754_zero _ => c = 0
  | S754_finite s m e =>
      let v := if s then - Zpos m else Zpos m in
      if 0 <=? e then c = v * 2 ^ e
      else (c - 1) * 2 ^ (- e) < v <= c * 2 ^ (- e)
  | _ => False
  end.

(** The value of [x] is an integer multiple of [2^j]. *)
Definition multipleOfPow2 (j : Z) (x : float64) : Prop :=
  match x with
  | S754_zero _ => True
  | S754_finite _ m e => j <= e \/ Zpos m mod 2 ^ (j - e) = 0
  | _ => False
  end.

(** Bytes that are ASCII letters or digits. *)
Definition alnumByte (c : ascii) : Prop :=
  isAlphanumeric (byte_val c) = true.

(* ===================================================================== *)
(** ** Example receipts *)
(* ===================================================================== *)

(** The receipt of the end-to-end scenario. *)
Definition targetReceipt : Receipt :=
  {| Retailer := "Target";
     PurchaseDate := "2022-01-01";
     PurchaseTime := "13:01";
     Total := "1.25";
     Items := [ {| ShortDescription := "Pepsi - 12-oz"; Price := "1.25" |};
                {| ShortDescription := "Dasani"; Price := "1.40" |} ] |}.

(** A receipt that earns nothing but what its total earns; the date is even
    and the time is outside the window. *)
Definition totalOnlyReceipt (total : string) : Receipt :=
  {| Retailer := "";
     PurchaseDate := "2022-01-02";
     PurchaseTime := "13:01";
     Total := total;
     Items := [] |}.

(** An item whose description has three bytes. *)
Definition threeByteItem (price : string) : Item :=
  {| ShortDescription := "abc"; Price := price |}.

(** A receipt with one item, whose description has three bytes. *)
Definition oneItemReceipt (price : string) : Receipt :=
  {| Retailer := "";
     PurchaseDate := "2022-01-02";
     PurchaseTime := "13:01";
     Total := "9.99";
     Items := [ threeByteItem price ] |}.

(** The target receipt with a month that does not exist. *)
Definition badDateReceipt : Receipt :=
  {| Retailer := "Target";
     PurchaseDate := "2022-13-01";
     PurchaseTime := "13:01";
     Total := "1.25";
     Items := Items targetReceipt |}.

(** The target receipt bought at a given time. *)
Definition targetAt (purchaseTime : string) : Receipt :=
  {| Retailer := "Target";
     PurchaseDate := "2022-01-01";
     PurchaseTime := purchaseTime;
     Total := "1.25";
     Items := Items targetReceipt |}.

Definition marketReceipt : Receipt :=
  {| Retailer := "M&M Corner Market";
     PurchaseDate := "2022-03-20";
     PurchaseTime := "14:33";
     Total := "9.00";
     Items := [ {| ShortDescription := "Gatorade"; Price := "2.25" |};
                {| ShortDescription := "Gatorade"; Price := "2.25" |};
                {| ShortDescription := "Gatorade"; Price := "2.25" |};
                {| ShortDescription := "Gatorade"; Price := "2.25" |} ] |}.

Definition date_2022_01_01 : time.Time :=
  {| time.year := 2022; time.month := 1; time.day := 1;
     time.hour := 0; time.min := 0 |}.
Definition date_2022_01_02 : time.Time :=
  {| time.year := 2022; time.month := 1; time.day := 2;
     time.hour := 0; time.min := 0 |}.
Definition date_2022_03_20 : time.Time :=
  {| time.year := 2022; time.month := 3; time.day := 20;
     time.hour := 0; time.min := 0 |}.
Definition clock (h m : Z) : time.Time :=
  {| time.year := 0; time.month := 1; time.day := 1;
     time.hour := h; time.min := m |}.

(** The round-dollar rule as the specification words it, for a total and a
    running value of [points]: 50 points are added exactly when the total
    parses and the parsed value has remainder 0 modulo 1.00. *)
Definition roundDollarAsSpecified (total : string) (points : Z) : Prop :=
  roundDollarCheck (fst (strconv.ParseFloat total)) points = Int.add points 50
  <-> (snd (strconv.ParseFloat total) = None
       /\ Float64.eqb (Mod (fst (strconv.ParseFloat total)) c_1_00) c_0 = true).

(** A source of identifiers that repeats its first draw. *)
Definition repeatingUuids (k : nat) : string :=
  match k with
  | 0%nat | 1%nat => "7fb1377b-b223-49d9-a31a-5a02701dd310"
  | _ => "adb6b560-0eef-42bc-9d16-df48f30e89b2"
  end.

Definition emptyServer : server := {| receipts := ∅; drawn := 0 |}.

(** A store that holds the target receipt. *)
Definition targetStore : gmap string Receipt :=
  {[ "7fb1377b-b223-49d9-a31a-5a02701dd310" := targetReceipt ]}.

(* ===================================================================== *)
(** ** The accepted dates and times, field by field *)
(* ===================================================================== *)

(** A byte that [time.Parse] reads as a decimal digit. *)
Definition isDig (c : ascii) : bool := byte_between "0" "9" c.

(** The fields of a date written as ten bytes, [dddd-dd-dd]. *)
Definition dateFields (s : list ascii) : option (Z * Z * Z) :=
  match s with
  | [y1; y2; y3; y4; h1; m1; m2; h2; d1; d2] =>
      if isDig y1 && isDig y2 && isDig y3 && isDig y4
         && Ascii.eqb h1 "-" && isDig m1 && isDig m2
         && Ascii.eqb h2 "-" && isDig d1 && isDig d2
      then Some (time.digit y1 * 1000 + time.digit y2 * 100
                 + time.digit y3 * 10 + time.digit y4,
                 time.digit m1 * 10 + time.digit m2,
                 time.digit d1 * 10 + time.digit d2)
      else None
  | _ => None
  end.

Definition dateOf (s : string) : option time.Time :=
  match dateFields (bytes s) with
  | Some (y, m, d) =>
      if (1 <=? m) && (m <=? 12) && (1 <=? d) && (d <=? time.daysIn m y)
      then Some {| time.year := y; time.month := m; time.day := d;
                   time.hour := 0; time.min := 0 |}
      else None
  | None => None
  end.

(** The fields of a time written [d:dd] or [dd:dd]. *)
Definition clockFields (s : list ascii) : option (Z * Z) :=
  match s with
  | [h1; c; m1; m2] =>
      if isDig h1 && Ascii.eqb c ":" && isDig m1 && isDig m2
      then Some (time.digit h1, time.digit m1 * 10 + time.digit m2)
      else None
  | [h1; h2; c; m1; m2] =>
      if isDig h1 && isDig h2 && Ascii.eqb c ":" && isDig m1 && isDig m2
      then Some (time.digit h1 * 10 + time.digit h2,
                 time.digit m1 * 10 + time.digit m2)
      else None
  | _ => None
  end.

Definition clockOf (s : string) : option time.Time :=
  match clockFields (bytes s) with
  | Some (h, m) =>
      if (h <? 24) && (m <? 60)
      then Some {| time.year := 0; time.month := 1; time.day := 1;
                   time.hour := h; time.min := m |}
      else None
  | None => None
  end.

(* ===================================================================== *)
(** ** Descriptions with spaces around them *)
(* ===================================================================== *)

(** [it'] is [it] with spaces added around its description. *)
Definition paddedItem (it it' : Item) : Prop :=
  Price it' = Price it
  /\ exists n m : nat,
       bytes (ShortDescription it')
       = repeat " "%char n ++ bytes (ShortDescription it)
         ++ repeat " "%char m.

(* ===================================================================== *)
(** ** The two routes of [main], request by request *)
(* ===================================================================== *)

(** A request to one of the two routes that [main] registers:
    [GET /receipts/:id/points], handled by [getReceiptPoints], and
    [POST /receipts/process], handled by [postReceipt]; a [POST] carries the
    outcome of [c.BindJSON(&newReceipt)]. *)
Inductive request : Type :=
| GetPoints (receiptId : string)
| PostProcess (bound : string + Receipt).

Section Serving.
Variable uuids : nat -> string.

(** One request, handled to its end by the handler of its route. Only
    [postReceipt] writes the collection. *)
Definition handle (fuel : nat) (sv : server) (req : request)
  : option (response * server) :=
  match req with
  | GetPoints receiptId =>
      Some (getReceiptPoints (receipts sv) receiptId, sv)
  | PostProcess bound => postReceipt uuids fuel sv bound
  end.

(** Requests handled one after the other, each on the collection the
    previous one left; the answers are listed in order. Handlers that run
    at the same time on the collection are outside this model. *)
Fixpoint serve (fuel : nat) (sv : server) (reqs : list request)
  : option (list response * server) :=
  match reqs with
  | [] => Some ([], sv)
  | req :: reqs' =>
      match handle fuel sv req with
      | Some (resp, sv') =>
          match serve fuel sv' reqs' with
          | Some (resps, sv'') => Some (resp :: resps, sv'')
          | None => None
          end
      | None => None
      end
  end.
End Serving.

(** The identifier an answer carries, if it is the answer to a receipt that
    was stored. *)
Definition createdId (resp : response) : option string :=
  match json resp with
  | H_id id => Some id
  | _ => None
  end.

(** The identifiers handed out in a list of answers, in order. *)
Definition createdIds (resps : list response) : list string :=
  omap createdId resps.

(** Requests that do not store a receipt: queries, and submissions whose
    body could not be decoded. *)
Definition readOnly (req : request) : bool :=
  match req with
  | PostProcess (inr _) => false
  | _ => true
  end.

(* ===================================================================== *)
(** ** More receipts and a sample of traffic *)
(* ===================================================================== *)

(** The target receipt bought on a given date. *)
Definition targetOn (purchaseDate : string) : Receipt :=
  {| Retailer := "Target";
     PurchaseDate := purchaseDate;
     PurchaseTime := "13:01";
     Total := "1.25";
     Items := Items targetReceipt |}.

Definition date_2023_07_31 : time.Time :=
  {| time.year := 2023; time.month := 7; time.day := 31;
     time.hour := 0; time.min := 0 |}.

(** The items of the target receipt in the other order. *)
Definition targetSwapped : list Item :=
  [ {| ShortDescription := "Dasani"; Price := "1.40" |};
    {| ShortDescription := "Pepsi - 12-oz"; Price := "1.25" |} ].

(** The items of the target receipt with spaces around the descriptions. *)
Definition targetPadded : list Item :=
  [ {| ShortDescription := "  Pepsi - 12-oz "; Price := "1.25" |};
    {| ShortDescription := "Dasani   "; Price := "1.40" |} ].

(** A server that holds the target receipt and has drawn no identifier. *)
Definition targetServer : server := {| receipts := targetStore; drawn := 0 |}.

(** A query of an unknown identifier, a body that does not decode, a
    submission, and a query of the identifier the submission was given. *)
Definition sampleTraffic : list request :=
  [ GetPoints "adb6b560-0eef-42bc-9d16-df48f30e89b2";
    PostProcess (inl "EOF");
    PostProcess (inr marketReceipt);
    GetPoints "adb6b560-0eef-42bc-9d16-df48f30e89b2" ].

Definition sampleAnswers : list response :=
  [ {| status := StatusNotFound; json := H_message "Receipt not found" |};
    {| status := StatusBadRequest; json := H_message "EOF" |};
    {| status := StatusCreated;
       json := H_id "adb6b560-0eef-42bc-9d16-df48f30e89b2" |};
    {| status := StatusOK; json := H_points 109 |} ].

Definition marketServer : server :=
  {| receipts :=
       <["adb6b560-0eef-42bc-9d16-df48f30e89b2" := marketReceipt]> targetStore;
     drawn := 3 |}.

(* ===================================================================== *)
(** ** Arithmetic of [int] *)
(* ===================================================================== *)

Module IntFacts.
Import Int.

Lemma wrap_in_range z : in_range (wrap z).
Proof.
  unfold in_range, wrap, min_int, max_int.
  pose proof (Z.mod_pos_bound (z + 2 ^ 63) (2 ^ 64) ltac:(lia)). lia.
Qed.

Lemma wrap_small z : in_range z -> wrap z = z.
Proof.
  unfold in_range, wrap, min_int, max_int. intros H.
  rewrite Z.mod_small by lia. lia.
Qed.

Lemma wrap_add_l a b : wrap (wrap a + b) = wrap (a + b).
Proof.
  unfold wrap.
  replace ((a + 2 ^ 63) mod 2 ^ 64 - 2 ^ 63 + b + 2 ^ 63)
    with ((a + 2 ^ 63) mod 2 ^ 64 + b) by lia.
  rewrite Zplus_mod_idemp_l. do 2 f_equal. lia.
Qed.

Lemma wrap_add_r a b : wrap (a + wrap b) = wrap (a + b).
Proof. rewrite (Z.add_comm a), wrap_add_l. f_equal. lia. Qed.

Lemma wrap_idem z : wrap (wrap z) = wrap z.
Proof. apply wrap_small, wrap_in_range. Qed.

(** Adding a constant strictly between 0 and 2^64 changes an [int]. *)
Lemma add_neq p c : 0 < c < 2 ^ 64 -> add p c <> p.
Proof.
  unfold add, wrap. intros Hc Heq.
  assert (H : (p + c + 2 ^ 63) mod 2 ^ 64 = p + 2 ^ 63) by lia.
  pose proof (Z.mod_pos_bound (p + c + 2 ^ 63) (2 ^ 64) ltac:(lia)) as Hb.
  assert (Hs : (p + 2 ^ 63) mod 2 ^ 64 = p + 2 ^ 63)
    by (apply Z.mod_small; lia).
  assert (Hd : (p + c + 2 ^ 63 - (p + 2 ^ 63)) mod 2 ^ 64 = 0).
  { rewrite Zminus_mod, H, Hs, Z.sub_diag. reflexivity. }
  replace (p + c + 2 ^ 63 - (p + 2 ^ 63)) with c in Hd by lia.
  rewrite Z.mod_small in Hd by lia. lia.
Qed.

Lemma zero_in_range : in_range 0.
Proof. unfold in_range, min_int, max_int. lia. Qed.

End IntFacts.

(* ===================================================================== *)
(** ** The blocks of [receiptPoints] add the contributions of the rules *)
(* ===================================================================== *)

Section Blocks.
Import Int IntFacts.

Lemma wrap_mul_r a b : wrap (a * wrap b) = wrap (a * b).
Proof.
  unfold wrap.
  replace (a * ((b + 2 ^ 63) mod 2 ^ 64 - 2 ^ 63) + 2 ^ 63)
    with (a * ((b + 2 ^ 63) mod 2 ^ 64) + (2 ^ 63 - a * 2 ^ 63)) by lia.
  rewrite <- Zplus_mod_idemp_l, Zmult_mod_idemp_r, Zplus_mod_idemp_l.
  do 2 f_equal. lia.
Qed.

Lemma add_in_range a b : in_range (add a b).
Proof. apply wrap_in_range. Qed.

Lemma retailer_fold (l : list utf8.rune) (p : Z) :
  in_range p ->
  fold_left (fun points char =>
               if isAlphanumeric char then add points 1 else points) l p
  = wrap (p + Z.of_nat (length (filter (fun c => isAlphanumeric c = true) l))).
Proof.
  revert p. induction l as [|c l IH]; intros p Hp; simpl.
  - rewrite Z.add_0_r, wrap_small; auto.
  - rewrite filter_cons. destruct (isAlphanumeric c) eqn:Hc.
    + rewrite decide_True by reflexivity.
      rewrite IH by apply add_in_range.
      unfold add. rewrite wrap_add_l. f_equal. simpl length. lia.
    + rewrite decide_False by discriminate. apply IH, Hp.
Qed.

Lemma retailerCheck_sum retailer p :
  in_range p -> retailerCheck retailer p = wrap (p + retailerPoints retailer).
Proof. apply retailer_fold. Qed.

Lemma retailerCheck_in_range retailer p :
  in_range p -> in_range (retailerCheck retailer p).
Proof. intros H. rewrite retailerCheck_sum by auto. apply wrap_in_range. Qed.

Lemma totalChecks_sum total p :
  in_range p ->
  totalChecks total p
  = wrap (p + roundDollarPoints total + quarterPoints total).
Proof.
  intros Hp.
  unfold totalChecks, roundDollarCheck, quarterCheck, roundDollarPoints,
    quarterPoints.
  destruct (Float64.eqb (Mod _ c_1_00) c_0), (Float64.eqb (Mod _ c_0_25) c_0);
    unfold add; rewrite ?wrap_add_l, ?Z.add_0_r; auto using wrap_small.
  symmetry. apply wrap_small, Hp.
Qed.

Lemma itemsCheck_sum items p :
  itemsCheck items p = wrap (p + itemCountPoints items).
Proof.
  unfold itemsCheck, itemCountPoints, add, mul, quo.
  rewrite wrap_mul_r, wrap_add_r.
  rewrite Z.quot_div_nonneg by lia. reflexivity.
Qed.

Lemma descriptionStep_sum p it :
  in_range p -> descriptionStep p it = wrap (p + itemPoints it).
Proof.
  intros Hp. unfold descriptionStep, itemPoints, rem.
  rewrite Z.rem_mod_nonneg by (unfold len; lia).
  destruct (_ =? 0).
  - reflexivity.
  - rewrite Z.add_0_r. symmetry. apply wrap_small, Hp.
Qed.

Lemma descriptionCheck_sum items p :
  in_range p ->
  descriptionCheck items p = wrap (p + descriptionPoints items).
Proof.
  unfold descriptionCheck. revert p.
  induction items as [|it items IH]; intros p Hp; simpl.
  - rewrite Z.add_0_r. symmetry. apply wrap_small, Hp.
  - rewrite descriptionStep_sum by auto.
    rewrite IH by apply wrap_in_range.
    rewrite wrap_add_l. f_equal. lia.
Qed.

Lemma dateCheck_sum d p :
  in_range p -> dateCheck d p = wrap (p + datePoints d).
Proof.
  intros Hp. unfold dateCheck, datePoints, rem.
  rewrite <- Zquot.Zodd_rem. destruct (Z.odd _).
  - reflexivity.
  - rewrite Z.add_0_r. symmetry. apply wrap_small, Hp.
Qed.

(** Both branches of the inner test of the time check add 10. *)
Lemma timeCheck_eq t p :
  timeCheck t p
  = if (14 <=? time.Hour t) && (time.Hour t <? 16) then add p 10 else p.
Proof.
  unfold timeCheck.
  destruct ((14 <=? time.Hour t) && (time.Hour t <? 16)); auto.
  destruct ((time.Hour t =? 14) && (0 <? time.Minute t)); auto.
Qed.

Lemma timeCheck_sum t p :
  in_range p -> timeCheck t p = wrap (p + timePoints t).
Proof.
  intros Hp. rewrite timeCheck_eq. unfold timePoints.
  destruct ((14 <=? time.Hour t) && (time.Hour t <? 16)).
  - reflexivity.
  - rewrite Z.add_0_r. symmetry. apply wrap_small, Hp.
Qed.

Lemma receiptPoints_parsed r d t :
  time.Parse time.layout_date (PurchaseDate r) = Some d ->
  time.Parse time.layout_clock (PurchaseTime r) = Some t ->
  receiptPoints r = timeCheck t (pointsBeforeTime r d).
Proof. intros Hd Ht. unfold receiptPoints. rewrite Hd, Ht. reflexivity. Qed.

Lemma pointsBeforeTime_sum r d :
  pointsBeforeTime r d
  = wrap (retailerPoints (Retailer r)
          + roundDollarPoints (Total r) + quarterPoints (Total r)
          + itemCountPoints (Items r)
          + descriptionPoints (Items r)
          + datePoints d).
Proof.
  unfold pointsBeforeTime.
  rewrite retailerCheck_sum by apply zero_in_range.
  rewrite totalChecks_sum by apply wrap_in_range.
  rewrite itemsCheck_sum.
  rewrite descriptionCheck_sum by apply wrap_in_range.
  rewrite dateCheck_sum by apply wrap_in_range.
  repeat (rewrite <- ?Z.add_assoc; rewrite wrap_add_l).
  reflexivity.
Qed.

(** When the date and the time parse, the score is the sum of the seven
    contributions, wrapped to an [int]. *)
Lemma receiptPoints_sum r d t :
  time.Parse time.layout_date (PurchaseDate r) = Some d ->
  time.Parse time.layout_clock (PurchaseTime r) = Some t ->
  receiptPoints r = wrap (rulesSum r d t).
Proof.
  intros Hd Ht. rewrite (receiptPoints_parsed r d t Hd Ht).
  rewrite pointsBeforeTime_sum, timeCheck_sum by apply wrap_in_range.
  rewrite wrap_add_l. reflexivity.
Qed.

End Blocks.

(* ===================================================================== *)
(** ** Facts about the library models *)
(* ===================================================================== *)

Section ParseFloatFacts.
Import strconv.

(** A syntax error comes with the value 0. *)
Lemma ParseFloat_syntax s :
  snd (ParseFloat s) = Some ErrSyntax -> fst (ParseFloat s) = pos_zero.
Proof.
  unfold ParseFloat.
  destruct (special (bytes s)) as [[f n]|].
  - destruct (n =? len (bytes s)); simpl; [discriminate | reflexivity].
  - destruct (readFloat (bytes s)) as [p|]; [|reflexivity].
    destruct (rest p); [|reflexivity].
    destruct (if hex p then _ else _); simpl; discriminate.
Qed.

(** A range error comes with an infinity. *)
Lemma ParseFloat_range s :
  snd (ParseFloat s) = Some ErrRange ->
  exists sign, fst (ParseFloat s) = Inf sign.
Proof.
  unfold ParseFloat.
  destruct (special (bytes s)) as [[f n]|].
  - destruct (n =? len (bytes s)); simpl; discriminate.
  - destruct (readFloat (bytes s)) as [p|]; [|discriminate].
    destruct (rest p); [|discriminate].
    destruct (if hex p then _ else _) as [| sign | |]; simpl;
      try discriminate.
    intros _. exists sign. reflexivity.
Qed.

End ParseFloatFacts.

(* ===================================================================== *)
(** ** Rounding, [math.Ceil] and [math.Mod] *)
(* ===================================================================== *)

Section FloatFacts.

Lemma digits2_pos_bounds p :
2 ^ (Zpos (digits2_pos p) - 1) <= Zpos p < 2 ^ Zpos (digits2_pos p).
Proof.
induction p as [p IH|p IH|]; simpl digits2_pos.
- rewrite Pos2Z.inj_succ.
  replace (Z.succ (Zpos (digits2_pos p)) - 1) with (Z.succ (Zpos (digits2_pos p) - 1)) by lia.
  rewrite !Z.pow_succ_r by lia. lia.
- rewrite Pos2Z.inj_succ.
  replace (Z.succ (Zpos (digits2_pos p)) - 1) with (Z.succ (Zpos (digits2_pos p) - 1)) by lia.
  rewrite !Z.pow_succ_r by lia. lia.
- simpl. lia.
Qed.

Lemma Zdigits2_nonneg x : 0 <= Zdigits2 x.
Proof. destruct x; simpl; lia. Qed.

Lemma Zdigits2_le x k : 0 <= k -> 0 <= x < 2 ^ k -> Zdigits2 x <= k.
Proof.
intros Hk Hx. destruct x as [|p|p]; simpl; try lia.
pose proof (digits2_pos_bounds p) as [Hlo _].
destruct (Z_le_gt_dec (Zpos (digits2_pos p)) k) as [|Hgt]; auto.
assert (2 ^ k <= 2 ^ (Zpos (digits2_pos p) - 1))
  by (apply Z.pow_le_mono_r; lia).
lia.
Qed.

Lemma Zdigits2_lt_pow x : 0 <= x -> x < 2 ^ Zdigits2 x.
Proof.
intros Hx. destruct x as [|p|p]; simpl; try lia.
apply digits2_pos_bounds.
Qed.

Lemma shr_1_m mrs : 0 <= shr_m mrs -> shr_m (shr_1 mrs) = shr_m mrs / 2.
Proof.
destruct mrs as [m r s]. simpl. intros Hm.
destruct m as [|[p|p|]|p]; simpl; try lia; try reflexivity.
- rewrite Pos2Z.inj_xI. apply (Z.div_unique_pos _ _ _ 1); lia.
- rewrite Pos2Z.inj_xO. apply (Z.div_unique_pos _ _ _ 0); lia.
Qed.

Lemma iter_pos_shr_m p : forall mrs,
0 <= shr_m mrs ->
shr_m (SpecFloat.iter_pos shr_1 p mrs) = shr_m mrs / 2 ^ Zpos p.
Proof.
induction p as [p IH|p IH|]; intros mrs Hm; simpl SpecFloat.iter_pos.
- assert (H1 : 0 <= shr_m (shr_1 mrs))
    by (rewrite shr_1_m by auto; apply Z.div_pos; lia).
  assert (H2 : 0 <= shr_m (SpecFloat.iter_pos shr_1 p (shr_1 mrs)))
    by (rewrite IH by auto; apply Z.div_pos; [auto | apply Z.pow_pos_nonneg; lia]).
  rewrite IH, IH, shr_1_m by auto.
  assert (0 < 2 ^ Zpos p) by (apply Z.pow_pos_nonneg; lia).
  rewrite !Z.div_div by lia. f_equal.
  rewrite (Pos2Z.inj_xI p).
  replace (2 * Zpos p + 1) with (1 + Zpos p + Zpos p) by lia.
  rewrite !Z.pow_add_r by lia. lia.
- assert (H2 : 0 <= shr_m (SpecFloat.iter_pos shr_1 p mrs))
    by (rewrite IH by auto; apply Z.div_pos; [auto | apply Z.pow_pos_nonneg; lia]).
  rewrite IH, IH by auto.
  assert (0 < 2 ^ Zpos p) by (apply Z.pow_pos_nonneg; lia).
  rewrite !Z.div_div by lia. f_equal.
  rewrite (Pos2Z.inj_xO p).
  replace (2 * Zpos p) with (Zpos p + Zpos p) by lia.
  rewrite !Z.pow_add_r by lia. lia.
- rewrite shr_1_m by auto. reflexivity.
Qed.

Lemma shr_record_of_loc_m m l : shr_m (shr_record_of_loc m l) = m.
Proof. destruct l as [|[]]; reflexivity. Qed.

(** What [shr_fexp] leaves: a mantissa of at most 53 bits and an exponent
  of at least -1074. *)
Lemma shr_fexp_out m e l :
0 <= m ->
0 <= shr_m (fst (shr_fexp prec emax m e l))
/\ Zdigits2 (shr_m (fst (shr_fexp prec emax m e l))) <= 53
/\ -1074 <= snd (shr_fexp prec emax m e l).
Proof.
intros Hm. unfold shr_fexp, shr.
pose proof (Zdigits2_nonneg m) as Hd.
pose proof (Zdigits2_lt_pow m Hm) as Hlt.
assert (Hf : fexp prec emax (Zdigits2 m + e)
             = Z.max (Zdigits2 m + e - 53) (-1074)) by reflexivity.
destruct (fexp prec emax (Zdigits2 m + e) - e) as [|n|n] eqn:En;
  cbn [fst snd]; rewrite ?shr_record_of_loc_m.
- repeat split; lia.
- rewrite iter_pos_shr_m by (rewrite shr_record_of_loc_m; auto).
  rewrite shr_record_of_loc_m.
  assert (0 < 2 ^ Zpos n) by (apply Z.pow_pos_nonneg; lia).
  split; [apply Z.div_pos; lia|]. split; [|lia].
  apply Zdigits2_le; [lia|]. split; [apply Z.div_pos; lia|].
  apply Z.div_lt_upper_bound; [lia|].
  rewrite <- Z.pow_add_r by lia.
  eapply Z.lt_le_trans; [exact Hlt|].
  apply Z.pow_le_mono_r; lia.
- repeat split; lia.
Qed.

Lemma round_nearest_even_bounds m l :
m <= round_nearest_even m l <= m + 1.
Proof.
unfold round_nearest_even. destruct l as [|[]]; try lia.
destruct (Z.even m); lia.
Qed.

Lemma binary_round_aux_rounded sx mx ex lx :
0 <= mx -> rounded sx (binary_round_aux prec emax sx mx ex lx).
Proof.
intros Hm. unfold binary_round_aux.
pose proof (shr_fexp_out mx ex lx Hm) as (H1 & _ & _).
destruct (shr_fexp prec emax mx ex lx) as [mrs' e']. cbn [fst snd] in H1.
pose proof (round_nearest_even_bounds (shr_m mrs')
              (loc_of_shr_record mrs')) as Hr.
pose proof (shr_fexp_out
              (round_nearest_even (shr_m mrs') (loc_of_shr_record mrs'))
              e' loc_Exact ltac:(lia)) as (H2 & H3 & H4).
destruct (shr_fexp prec emax _ e' loc_Exact) as [mrs'' e''].
cbn [fst snd] in H2, H3, H4.
destruct (shr_m mrs'') as [|m|m]; simpl; try lia; auto.
destruct (e'' <=? emax - prec); simpl; auto.
Qed.

Lemma binary_round_rounded sx mx ex :
rounded sx (binary_round prec emax sx mx ex).
Proof.
unfold binary_round. destruct (shl_align _ _ _) as [mz ez].
apply binary_round_aux_rounded. lia.
Qed.

Lemma rounded_wellFormed sx x : rounded sx x -> wellFormed x.
Proof. destruct x; simpl; tauto. Qed.

Lemma of_binary_wellFormed neg m e : wellFormed (of_binary neg m e).
Proof.
unfold of_binary. destruct m; simpl; auto.
eapply rounded_wellFormed, binary_round_rounded.
Qed.

Lemma of_quotient_wellFormed neg n d e :
0 < d -> wellFormed (of_quotient neg n d e).
Proof.
intros Hd. unfold of_quotient. destruct n as [|n|n]; simpl; auto.
unfold SFdiv_core_binary.
set (m' := match _ - _ with Z0 => _ | Zpos _ => _ | Zneg _ => _ end).
assert (Hm' : 0 <= m').
{ subst m'. destruct (_ - _); try lia. apply Z.shiftl_nonneg. lia. }
pose proof (Z.div_pos m' d Hm' Hd) as Hq. unfold Z.div in Hq.
destruct (Z.div_eucl m' d) as [q r]. simpl in Hq.
eapply rounded_wellFormed, binary_round_aux_rounded. exact Hq.
Qed.

Lemma of_decimal_wellFormed neg m e : wellFormed (of_decimal neg m e).
Proof.
unfold of_decimal. destruct (Z.leb_spec 0 e).
- apply of_binary_wellFormed.
- apply of_quotient_wellFormed. apply Z.pow_pos_nonneg; lia.
Qed.

Lemma mul_wellFormed x y : wellFormed (Float64.mul x y).
Proof.
destruct x as [sx|sx| |sx mx ex], y as [sy|sy| |sy my ey]; simpl; auto.
eapply rounded_wellFormed, binary_round_aux_rounded. lia.
Qed.

Lemma ParseFloat_wellFormed s : wellFormed (fst (strconv.ParseFloat s)).
Proof.
unfold strconv.ParseFloat.
destruct (strconv.special (bytes s)) as [[f n]|] eqn:E.
- destruct (n =? len (bytes s)); simpl; auto.
  unfold strconv.special in E.
  destruct (bytes s) as [|c l]; [discriminate|].
  repeat match type of E with
         | (if ?b then _ else _) = _ => destruct b
         | (let n := _ in _) = _ => cbv zeta in E
         | Some _ = Some _ => injection E as <- <-
         | None = Some _ => discriminate
         end; simpl; auto.
- destruct (strconv.readFloat (bytes s)) as [p|]; simpl; auto.
  destruct (strconv.rest p); simpl; auto.
  assert (W : wellFormed (if strconv.hex p
                          then of_binary (strconv.neg p) (strconv.mant p) (strconv.exp p)
                          else of_decimal (strconv.neg p) (strconv.mant p) (strconv.exp p))).
  { destruct (strconv.hex p);
      [apply of_binary_wellFormed | apply of_decimal_wellFormed]. }
  destruct (if strconv.hex p then _ else _); simpl; auto.
Qed.

Lemma iter_xO_value p k : Zpos (Pos.iter xO p k) = Zpos p * 2 ^ Zpos k.
Proof.
induction k as [|k IH] using Pos.peano_ind.
- simpl. lia.
- rewrite Pos.iter_succ, Pos2Z.inj_xO, IH, Pos2Z.inj_succ.
  rewrite Z.pow_succ_r by lia. lia.
Qed.

Lemma iter_xO_digits p k :
Zpos (digits2_pos (Pos.iter xO p k)) = Zpos (digits2_pos p) + Zpos k.
Proof.
induction k as [|k IH] using Pos.peano_ind.
- simpl. lia.
- rewrite Pos.iter_succ. simpl digits2_pos.
  rewrite Pos2Z.inj_succ, IH. lia.
Qed.

(** Rounding leaves a mantissa alone when its exponent is the one of its
  binade. *)
Lemma binary_round_aux_canonical s m e :
fexp prec emax (Zpos (digits2_pos m) + e) = e ->
e <= 971 ->
binary_round_aux prec emax s (Zpos m) e loc_Exact = S754_finite s m e.
Proof.
intros Hc He. unfold binary_round_aux, shr_fexp.
cbn [Zdigits2 shr_record_of_loc]. rewrite Hc, Z.sub_diag.
cbn [shr shr_m loc_of_shr_record round_nearest_even Zdigits2 shr_record_of_loc].
rewrite Hc, Z.sub_diag. cbn [shr shr_m].
destruct (Z.leb_spec e (emax - prec)); [reflexivity|].
unfold emax, prec in *. lia.
Qed.

(** A number with at most 53 bits is represented exactly. *)
Lemma binary_round_exact s p e :
Zpos (digits2_pos p) <= 53 -> -1074 <= e <= 971 ->
exists m' e',
  binary_round prec emax s p e = S754_finite s m' e'
  /\ -1074 <= e' <= e
  /\ Zpos m' = Zpos p * 2 ^ (e - e').
Proof.
intros Hd He. unfold binary_round, shl_align.
assert (Hf : fexp prec emax (Zpos (digits2_pos p) + e)
             = Z.max (Zpos (digits2_pos p) + e - 53) (-1074)) by reflexivity.
destruct (fexp prec emax (Zpos (digits2_pos p) + e) - e) as [|k|k] eqn:Ek.
- exists p, e. rewrite binary_round_aux_canonical by lia.
  rewrite Z.sub_diag. repeat split; lia.
- lia.
- exists (Pos.iter xO p k), (fexp prec emax (Zpos (digits2_pos p) + e)).
  rewrite binary_round_aux_canonical.
  + repeat split; try lia. rewrite iter_xO_value. do 2 f_equal. lia.
  + rewrite iter_xO_digits. f_equal. lia.
  + lia.
Qed.

Lemma of_binary_exact s q e :
0 < q < 2 ^ 53 -> -1074 <= e <= 971 ->
exists m' e',
  of_binary s q e = S754_finite s m' e'
  /\ -1074 <= e' <= e
  /\ Zpos m' = q * 2 ^ (e - e').
Proof.
intros Hq He. destruct q as [|p|p]; try lia.
apply binary_round_exact; auto.
apply (Zdigits2_le (Zpos p)); lia.
Qed.

Lemma trunc_of_binary s q :
0 <= q < 2 ^ 53 ->
trunc (of_binary s q 0) = Some (if s then - q else q).
Proof.
intros Hq. destruct (Z.eq_dec q 0) as [->|Hn].
- simpl. destruct s; reflexivity.
- destruct (of_binary_exact s q 0) as (m' & e' & E & He' & Hm'); try lia.
  rewrite E. unfold trunc. f_equal.
  assert (Ha : (if 0 <=? e' then Zpos m' * 2 ^ e' else Zpos m' / 2 ^ (- e'))
               = q).
  { destruct (Z.leb_spec 0 e').
    - assert (e' = 0) as -> by lia. simpl in *. lia.
    - rewrite Hm'. replace (0 - e') with (- e') by lia.
      apply Z.div_mul. apply Z.pow_nonzero; lia. }
  rewrite Ha. reflexivity.
Qed.

Lemma trunc_Ceil x c :
wellFormed x -> ceilingOf x c -> trunc (Ceil x) = Some c.
Proof.
destruct x as [s|s| |s m e]; simpl; try tauto.
- intros _ ->. reflexivity.
- intros [Hd He].
  pose proof (digits2_pos_bounds m) as [_ Hm].
  assert (Hm53 : Zpos m < 2 ^ 53).
  { eapply Z.lt_le_trans; [exact Hm|]. apply Z.pow_le_mono_r; lia. }
  destruct (Z.leb_spec 0 e) as [H0|H0].
  + intros ->. simpl. destruct (Z.leb_spec 0 e); [|lia].
    destruct s; f_equal; lia.
  + intros Hc.
    assert (Hk : 0 < 2 ^ (- e)) by (apply Z.pow_pos_nonneg; lia).
    assert (H2 : 2 <= 2 ^ (- e)).
    { change 2 with (2 ^ 1) at 1. apply Z.pow_le_mono_r; lia. }
    pose proof (Z.div_mod (Zpos m) (2 ^ (- e)) ltac:(lia)) as Hdm.
    pose proof (Z.mod_pos_bound (Zpos m) (2 ^ (- e)) Hk) as Hr.
    assert (Hq0 : 0 <= Zpos m / 2 ^ (- e)) by (apply Z.div_pos; lia).
    assert (Hqm : Zpos m / 2 ^ (- e) < Zpos m)
      by (apply Z.div_lt; lia).
    destruct s.
    * rewrite trunc_of_binary by lia. f_equal. nia.
    * destruct (Z.eqb_spec (Zpos m mod 2 ^ (- e)) 0) as [Hz|Hz];
        rewrite trunc_of_binary by lia; f_equal; nia.
Qed.

(** The conversion of the ceiling to [int] is the least integer greater
  than or equal to the value, whenever that integer is an [int]. *)
Lemma to_int_Ceil x c :
wellFormed x -> ceilingOf x c -> Int.in_range c -> to_int (Ceil x) = c.
Proof.
intros Hw Hc Hr. unfold to_int. rewrite (trunc_Ceil x c Hw Hc).
unfold Int.in_range in Hr.
destruct (Z.leb_spec Int.min_int c), (Z.leb_spec c Int.max_int);
  simpl; lia.
Qed.

(** The remainder modulo the power of two [2^j] is zero exactly for the
  multiples of [2^j]; [2^j] is the float64 of mantissa [2^52] and exponent
  [j - 52]. *)
Lemma Mod_pow2_zero x j :
wellFormed x -> -1022 <= j <= 1023 ->
Float64.eqb (Mod x (S754_finite false 4503599627370496 (j - 52))) c_0 = true
<-> multipleOfPow2 j x.
Proof.
destruct x as [s|s| |s m e]; intros Hw Hj; cbn [Mod multipleOfPow2].
- destruct s; split; auto.
- split; [discriminate | tauto].
- split; [discriminate | tauto].
- destruct Hw as [Hd He].
  pose proof (digits2_pos_bounds m) as [_ Hm].
  assert (Hm53 : Zpos m < 2 ^ 53).
  { eapply Z.lt_le_trans; [exact Hm|]. apply Z.pow_le_mono_r; lia. }
  cbv zeta.
  set (e0 := Z.min e (j - 52)).
  set (X := Zpos m * 2 ^ (e - e0)).
  set (Y := 4503599627370496 * 2 ^ (j - 52 - e0)).
  assert (HR : 0 <= X mod Y < 2 ^ 53
               /\ (X mod Y = 0 <-> j <= e \/ Zpos m mod 2 ^ (j - e) = 0)).
  { change 4503599627370496 with (2 ^ 52) in Y.
    destruct (Z_le_gt_dec e (j - 52)) as [Hle|Hgt].
    - assert (e0 = e) as E0 by (unfold e0; lia).
      assert (X = Zpos m) as -> by (unfold X; rewrite E0, Z.sub_diag; simpl; lia).
      assert (Y = 2 ^ (j - e)) as ->.
      { unfold Y. rewrite E0, <- Z.pow_add_r by lia. f_equal. lia. }
      assert (0 < 2 ^ (j - e)) by (apply Z.pow_pos_nonneg; lia).
      pose proof (Z.mod_pos_bound (Zpos m) (2 ^ (j - e)) ltac:(lia)).
      pose proof (Z.mod_le (Zpos m) (2 ^ (j - e)) ltac:(lia) ltac:(lia)).
      split; [lia|]. split; [auto | intros [?|?]; [lia | auto]].
    - assert (e0 = j - 52) as E0 by (unfold e0; lia).
      assert (Y = 2 ^ 52) as ->
          by (unfold Y; rewrite E0, Z.sub_diag; simpl; lia).
      pose proof (Z.mod_pos_bound X (2 ^ 52) ltac:(lia)) as HXb.
      split; [lia|].
      destruct (Z_le_gt_dec j e) as [Hje|Hje].
      + assert (X = Zpos m * 2 ^ (e - j) * 2 ^ 52) as ->.
        { unfold X. rewrite E0, <- Z.mul_assoc, <- Z.pow_add_r by lia.
          do 2 f_equal. lia. }
        rewrite Z.mod_mul by lia. split; auto.
      + assert (HX : X = Zpos m * 2 ^ (e - j + 52))
          by (unfold X; rewrite E0; do 2 f_equal; lia).
        assert (HY : 2 ^ 52 = 2 ^ (j - e) * 2 ^ (e - j + 52)).
        { rewrite <- Z.pow_add_r by lia. f_equal. lia. }
        assert (0 < 2 ^ (e - j + 52)) by (apply Z.pow_pos_nonneg; lia).
        rewrite HX, HY, Z.mul_mod_distr_r by lia.
        split.
        * intros Hz. right. nia.
        * intros [?|Hz]; [lia|]. rewrite Hz. lia. }
  destruct HR as [HRb HR0]. rewrite <- HR0.
  destruct (Z.eq_dec (X mod Y) 0) as [Ez|Nz].
  + rewrite Ez. simpl. split; auto.
  + destruct (of_binary_exact s (X mod Y) e0) as (m' & e' & E & _);
      [lia | unfold e0; lia |].
    rewrite E. split; [|contradiction].
    destruct s; discriminate.
Qed.

Lemma roundDollar_whole x :
wellFormed x ->
Float64.eqb (Mod x c_1_00) c_0 = true <-> multipleOfPow2 0 x.
Proof. intros Hw. apply (Mod_pow2_zero x 0 Hw). lia. Qed.

Lemma quarter_multiple x :
wellFormed x ->
Float64.eqb (Mod x c_0_25) c_0 = true <-> multipleOfPow2 (-2) x.
Proof. intros Hw. apply (Mod_pow2_zero x (-2) Hw). lia. Qed.

End FloatFacts.

Section RangeFacts.
Import utf8.

Lemma byte_val_bound c : 0 <= byte_val c < 256.
Proof. destruct c as [[] [] [] [] [] [] [] []]; vm_compute; split; congruence. Qed.

Lemma isAlphanumeric_high z : 128 <= z -> isAlphanumeric z = false.
Proof.
  intros H. unfold isAlphanumeric.
  change (byte_val "a") with 97. change (byte_val "z") with 122.
  change (byte_val "A") with 65. change (byte_val "Z") with 90.
  change (byte_val "0") with 48. change (byte_val "9") with 57.
  repeat match goal with
         | |- context [?a <=? ?b] => destruct (Z.leb_spec a b)
         end; simpl; auto; lia.
Qed.

Lemma lor_lower_bound k a b :
  0 <= k -> 0 <= b -> 2 ^ k <= a -> 2 ^ k <= Z.lor a b.
Proof.
  intros Hk Hb Ha.
  assert (0 < 2 ^ k) by (apply Z.pow_pos_nonneg; lia).
  assert (Hl : 0 <= Z.lor a b) by (apply Z.lor_nonneg; lia).
  assert (Hn : Z.lor a b <> 0).
  { intros E. apply Z.lor_eq_0_iff in E. lia. }
  apply Z.log2_le_pow2; [lia|].
  rewrite Z.log2_lor by lia.
  apply Z.log2_le_pow2 in Ha; lia.
Qed.

Lemma low6_nonneg c : 0 <= low6 c.
Proof.
  unfold low6. apply Z.land_nonneg. right. lia.
Qed.

Lemma land_low b n : 0 <= n -> Z.land b (2 ^ n - 1) = b mod 2 ^ n.
Proof.
  intros Hn. rewrite <- Z.land_ones by lia. f_equal.
  rewrite Z.ones_equiv. lia.
Qed.

(** What [DecodeRune] returns on a non-empty string: an ASCII byte as it
    is, or a rune that is not ASCII together with the continuation bytes
    it covers, none of them ASCII. *)
Lemma DecodeRune_cases c s :
  (byte_val c < 128 /\ DecodeRune (c :: s) = (byte_val c, 1%nat))
  \/ (128 <= byte_val c /\
      exists r w, DecodeRune (c :: s) = (r, S w) /\ 128 <= r /\
                  (w <= length s)%nat /\
                  Forall (fun x => 128 <= byte_val x) (firstn w s)).
Proof.
  pose proof (byte_val_bound c) as Hc.
  destruct (Z.ltb_spec (byte_val c) 128) as [Hlt|Hge].
  { left. split; auto. unfold DecodeRune.
    destruct (Z.ltb_spec (byte_val c) 128); [reflexivity | lia]. }
  right. split; auto.
  assert (Herr : exists r w, (RuneError, 1%nat) = (r, S w) /\ 128 <= r /\
             (w <= length s)%nat /\
             Forall (fun x => 128 <= byte_val x) (firstn w s)).
  { exists RuneError, 0%nat. repeat split; unfold RuneError; simpl;
      try lia. constructor. }
  unfold DecodeRune.
  destruct (Z.ltb_spec (byte_val c) 128); [lia|].
  destruct ((194 <=? byte_val c) && (byte_val c <=? 223)) eqn:H2.
  { destruct s as [|c1 s]; auto.
    destruct (in_byte_range 128 191 c1) eqn:R1; auto.
    exists (Z.lor (Z.shiftl (Z.land (byte_val c) 31) 6) (low6 c1)), 1%nat.
    unfold in_byte_range in R1.
    repeat split; simpl; try lia.
    - apply (lor_lower_bound 7); [lia | apply low6_nonneg |].
      rewrite Z.shiftl_mul_pow2 by lia.
      change 31 with (2 ^ 5 - 1). rewrite land_low by lia.
      change (2 ^ 5) with 32. change (2 ^ 6) with 64. change (2 ^ 7) with 128.
      assert (byte_val c mod 32 = byte_val c - 192); [|lia].
      symmetry. apply (Z.mod_unique_pos _ _ 6); lia.
    - repeat constructor. lia. }
  destruct ((224 <=? byte_val c) && (byte_val c <=? 239)) eqn:H3.
  { destruct s as [|c1 [|c2 s]]; auto. cbv zeta.
    destruct (in_byte_range _ _ c1 && in_byte_range 128 191 c2) eqn:R;
      auto.
    apply andb_true_iff in R as [R1 R2].
    unfold in_byte_range in R1, R2.
    pose proof (byte_val_bound c1) as Hc1.
    assert (R1' : 128 <= byte_val c1 <= 191 /\
                  (byte_val c = 224 -> 160 <= byte_val c1)).
    { destruct (Z.eqb_spec (byte_val c) 224);
        destruct (Z.eqb_spec (byte_val c) 237); lia. }
    clear R1. destruct R1' as [R1 R1'].
    eexists _, 2%nat. split; [reflexivity|].
    repeat split; simpl; try lia.
    - rewrite Z.lor_assoc.
      apply (lor_lower_bound 7); [lia | apply low6_nonneg |].
      rewrite !Z.shiftl_mul_pow2 by lia.
      change 15 with (2 ^ 4 - 1). rewrite land_low by lia.
      unfold low6. change 63 with (2 ^ 6 - 1). rewrite land_low by lia.
      change (2 ^ 4) with 16. change (2 ^ 6) with 64.
      change (2 ^ 12) with 4096.
      assert (Em : byte_val c mod 16 = byte_val c - 224).
      { symmetry. apply (Z.mod_unique_pos _ _ 14); lia. }
      assert (Em1 : byte_val c1 mod 64 = byte_val c1 - 128).
      { symmetry. apply (Z.mod_unique_pos _ _ 2); lia. }
      rewrite Em, Em1.
      destruct (Z.eq_dec (byte_val c) 224) as [E|NE].
      + rewrite Z.lor_comm. apply (lor_lower_bound 7); lia.
      + apply (lor_lower_bound 7); lia.
    - repeat constructor; lia. }
  destruct ((240 <=? byte_val c) && (byte_val c <=? 244)) eqn:H4; auto.
  destruct s as [|c1 [|c2 [|c3 s]]]; auto. cbv zeta.
  destruct (in_byte_range _ _ c1 && in_byte_range 128 191 c2
            && in_byte_range 128 191 c3) eqn:R; auto.
  apply andb_true_iff in R as [R R3]. apply andb_true_iff in R as [R1 R2].
  unfold in_byte_range in R1, R2, R3.
  pose proof (byte_val_bound c1) as Hc1.
  assert (R1' : 128 <= byte_val c1 <= 191 /\
                (byte_val c = 240 -> 144 <= byte_val c1)).
  { destruct (Z.eqb_spec (byte_val c) 240);
      destruct (Z.eqb_spec (byte_val c) 244); lia. }
  clear R1. destruct R1' as [R1 R1'].
  eexists _, 3%nat. split; [reflexivity|].
  repeat split; simpl; try lia.
  - rewrite Z.lor_assoc.
    apply (lor_lower_bound 7);
      [lia | apply Z.lor_nonneg; split;
             [apply Z.shiftl_nonneg, low6_nonneg | apply low6_nonneg] |].
    rewrite !Z.shiftl_mul_pow2 by lia.
    change 7 with (2 ^ 3 - 1) at 2. rewrite land_low by lia.
    unfold low6. change 63 with (2 ^ 6 - 1). rewrite land_low by lia.
    change (2 ^ 3) with 8. change (2 ^ 6) with 64.
    change (2 ^ 12) with 4096. change (2 ^ 18) with 262144.
    assert (Em : byte_val c mod 8 = byte_val c - 240).
    { symmetry. apply (Z.mod_unique_pos _ _ 30); lia. }
    assert (Em1 : byte_val c1 mod 64 = byte_val c1 - 128).
    { symmetry. apply (Z.mod_unique_pos _ _ 2); lia. }
    rewrite Em, Em1.
    destruct (Z.eq_dec (byte_val c) 240) as [E|NE].
    + rewrite Z.lor_comm. apply (lor_lower_bound 7); lia.
    + apply (lor_lower_bound 7); lia.
  - repeat constructor; lia.
Qed.

End RangeFacts.

Section RangeCount.
Import utf8.

Lemma alnumByte_high c : 128 <= byte_val c -> ~ alnumByte c.
Proof. unfold alnumByte. intros H. rewrite isAlphanumeric_high; auto. Qed.

(** Ranging over a string meets as many alphanumeric runes as the string
    has alphanumeric bytes; [k] bytes of the current rune remain. *)
Lemma range_from_alnum s : forall k,
  (k <= length s)%nat ->
  Forall (fun x => 128 <= byte_val x) (firstn k s) ->
  length (filter (fun c => isAlphanumeric c = true) (range_from k s))
  = length (filter alnumByte s).
Proof.
  induction s as [|c s IH]; intros k Hk Hpre.
  - reflexivity.
  - destruct k as [|k].
    + cbn [range_from].
      destruct (DecodeRune_cases c s) as [[Hc E]|[Hc (r & w & E & Hr & Hw & Hall)]];
        rewrite E.
      * cbn [Nat.sub]. rewrite !filter_cons. unfold alnumByte at 1.
        destruct (decide (isAlphanumeric (byte_val c) = true));
          cbn [length]; rewrite (IH 0%nat); auto; simpl; try lia; constructor.
      * replace (S w - 1)%nat with w by lia.
        rewrite filter_cons_False
          by (rewrite isAlphanumeric_high by auto; discriminate).
        rewrite (filter_cons_False alnumByte) by (apply alnumByte_high; auto).
        apply IH; auto.
    + cbn [range_from]. simpl in Hpre, Hk. inversion Hpre; subst.
      rewrite (filter_cons_False alnumByte) by (apply alnumByte_high; auto).
      apply IH; auto. lia.
Qed.

Lemma retailerPoints_bytes retailer :
  retailerPoints retailer
  = Z.of_nat (length (filter alnumByte (bytes retailer))).
Proof.
  unfold retailerPoints, range. f_equal.
  apply range_from_alnum; simpl; [lia | constructor].
Qed.

Lemma retailerPoints_bound retailer :
  0 <= retailerPoints retailer <= len (bytes retailer).
Proof.
  rewrite retailerPoints_bytes. unfold len.
  pose proof (length_filter alnumByte (bytes retailer)). lia.
Qed.

End RangeCount.

Section TrimFacts.
Import strings.

Lemma trimLeftByte_spec s c :
  exists n : nat,
    s = repeat c n ++ trimLeftByte s c /\ head (trimLeftByte s c) <> Some c.
Proof.
  induction s as [|x s (n & E & H)]; simpl.
  - exists 0%nat. split; [reflexivity | discriminate].
  - destruct (Ascii.eqb_spec x c) as [->|Hx].
    + exists (S n). simpl. split; [congruence | exact H].
    + exists 0%nat. simpl. split; [reflexivity | congruence].
Qed.

Lemma last_rev (l : list ascii) : last (rev l) = head l.
Proof. destruct l as [|x l]; simpl; [reflexivity | apply last_snoc]. Qed.

Lemma trimRightByte_spec s c :
  exists m : nat,
    s = trimRightByte s c ++ repeat c m /\ last (trimRightByte s c) <> Some c.
Proof.
  unfold trimRightByte.
  destruct (trimLeftByte_spec (rev s) c) as (m & E & H).
  exists m. split.
  - rewrite <- (rev_involutive s) at 1. rewrite E at 1.
    rewrite rev_app_distr. f_equal.
    clear. induction m as [|m IH]; simpl; [reflexivity|].
    rewrite IH. symmetry. apply repeat_cons.
  - rewrite last_rev. exact H.
Qed.

(** [Trim] removes exactly the bytes [c] at both ends: the string is the
    result between two runs of [c], and the result neither starts nor ends
    with [c]. *)
Lemma Trim_spec s c :
  exists n m : nat,
    s = repeat c n ++ Trim s c ++ repeat c m
    /\ head (Trim s c) <> Some c
    /\ last (Trim s c) <> Some c.
Proof.
  unfold Trim.
  destruct (trimRightByte_spec s c) as (m & Er & Hr).
  destruct (trimLeftByte_spec (trimRightByte s c) c) as (n & El & Hl).
  exists n, m. split; [|split; [exact Hl|]].
  - rewrite Er at 1. rewrite El at 1. rewrite <- app_assoc. reflexivity.
  - destruct (trimLeftByte (trimRightByte s c) c) as [|x l] eqn:E.
    + discriminate.
    + rewrite El in Hr. rewrite last_app in Hr.
      destruct (last (x :: l)) eqn:EL; [exact Hr|].
      apply last_None in EL. discriminate.
Qed.

End TrimFacts.

Section RuleBounds.

Lemma roundDollarPoints_nonneg total : 0 <= roundDollarPoints total.
Proof. unfold roundDollarPoints. destruct (Float64.eqb _ _); lia. Qed.

Lemma quarterPoints_nonneg total : 0 <= quarterPoints total.
Proof. unfold quarterPoints. destruct (Float64.eqb _ _); lia. Qed.

Lemma itemCountPoints_nonneg items : 0 <= itemCountPoints items.
Proof.
  unfold itemCountPoints.
  pose proof (Z.div_pos (Z.of_nat (length items)) 2 ltac:(lia) ltac:(lia)).
  lia.
Qed.

Lemma datePoints_nonneg d : 0 <= datePoints d.
Proof. unfold datePoints. destruct (Z.odd _); lia. Qed.

Lemma timePoints_nonneg t : 0 <= timePoints t.
Proof. unfold timePoints. destruct (_ && _); lia. Qed.

Lemma descriptionPoints_nonneg items :
  Forall (fun it => 0 <= itemPoints it) items ->
  0 <= descriptionPoints items.
Proof.
  induction 1 as [|it items Hit _ IH]; simpl; lia.
Qed.

(** A price that is not syntactically a number is read as 0 and earns
    nothing. *)
Lemma itemPoints_syntax_error it :
  snd (strconv.ParseFloat (Price it)) = Some strconv.ErrSyntax ->
  itemPoints it = 0.
Proof.
  intros E. unfold itemPoints. rewrite (ParseFloat_syntax _ E).
  destruct (_ =? 0); reflexivity.
Qed.

(** A product that is zero, or positive and below 2^63, earns a number
    of points that is not negative. *)
Lemma to_int_Ceil_nonneg x :
  wellFormed x ->
  match x with
  | S754_zero _ => True
  | S754_finite s m e =>
      s = false /\ (0 <= e -> Zpos m * 2 ^ e <= Int.max_int)
  | _ => False
  end ->
  0 <= to_int (Ceil x).
Proof.
  intros Hw Hx. destruct x as [s| | |s m e]; try tauto.
  - destruct s; vm_compute; discriminate.
  - destruct Hx as [-> Hmax].
    pose proof (digits2_pos_bounds m) as [_ Hm].
    pose proof Hw as [Hd He].
    assert (Hm53 : Zpos m < 2 ^ 53).
    { eapply Z.lt_le_trans; [exact Hm|]. apply Z.pow_le_mono_r; lia. }
    destruct (Z.leb_spec 0 e) as [H0|H0].
    + assert (0 < 2 ^ e) by (apply Z.pow_pos_nonneg; lia).
      assert (Hc : ceilingOf (S754_finite false m e) (Zpos m * 2 ^ e)).
      { simpl. destruct (Z.leb_spec 0 e); [reflexivity | lia]. }
      assert (Hr : Int.in_range (Zpos m * 2 ^ e)).
      { unfold Int.in_range, Int.min_int. split; [nia | auto]. }
      rewrite (to_int_Ceil _ _ Hw Hc Hr). nia.
    + assert (Hk : 0 < 2 ^ (- e)) by (apply Z.pow_pos_nonneg; lia).
      set (c := - ((- Zpos m) / 2 ^ (- e))).
      pose proof (Z.div_mod (- Zpos m) (2 ^ (- e)) ltac:(lia)) as Hdm.
      pose proof (Z.mod_pos_bound (- Zpos m) (2 ^ (- e)) Hk) as Hmod.
      assert (Hb : (c - 1) * 2 ^ (- e) < Zpos m <= c * 2 ^ (- e))
        by (unfold c; nia).
      assert (Hc0 : 0 < c) by nia.
      assert (Hcm : c <= Zpos m) by nia.
      assert (Hc : ceilingOf (S754_finite false m e) c).
      { simpl. destruct (Z.leb_spec 0 e); [lia | exact Hb]. }
      assert (Hr : Int.in_range c).
      { unfold Int.in_range, Int.min_int, Int.max_int. lia. }
      rewrite (to_int_Ceil _ _ Hw Hc Hr). lia.
Qed.

End RuleBounds.

(* ===================================================================== *)
(** ** The receipt store *)
(* ===================================================================== *)

Section StoreFacts.
Variable uuids : nat -> string.

(** The loop stops on the first draw that is not a key of the store. *)
Lemma freshGuid_spec fuel (m : gmap string Receipt) k id k' :
  freshGuid uuids fuel m k = Some (id, k') ->
  m !! id = None /\
  exists j, (k <= j)%nat /\ id = uuids j /\ k' = S j /\
            forall i, (k <= i < j)%nat -> is_Some (m !! uuids i).
Proof.
  revert k. induction fuel as [|fuel IH]; intros k; simpl; [discriminate|].
  destruct (m !! uuids k) as [x|] eqn:E.
  - intros H. apply IH in H as (Hfresh & j & Hj & -> & -> & Hbusy).
    split; [exact Hfresh|]. exists j. repeat split; auto; try lia.
    intros i Hi. destruct (decide (i = k)) as [->|]; [eauto|].
    apply Hbusy. lia.
  - intros [= <- <-]. split; [exact E|]. exists k. repeat split; auto.
    intros i Hi. lia.
Qed.

(** The loop ends as soon as some later draw is not a key of the store:
    any fuel beyond the distance to that draw is enough. *)
Lemma freshGuid_terminates (m : gmap string Receipt) k j fuel :
  (k <= j)%nat -> m !! uuids j = None -> (j - k < fuel)%nat ->
  exists id k', freshGuid uuids fuel m k = Some (id, k').
Proof.
  revert k. induction fuel as [|fuel IH]; intros k Hkj Hj Hfuel; [lia|].
  simpl. destruct (m !! uuids k) as [x|] eqn:E; [|eauto].
  assert (k <> j) by (intros ->; congruence).
  apply IH; auto; lia.
Qed.

Lemma postReceipt_spec fuel sv r resp sv' :
  postReceipt uuids fuel sv (inr r) = Some (resp, sv') ->
  exists id,
    resp = {| status := StatusCreated; json := H_id id |}
    /\ receipts sv !! id = None
    /\ receipts sv' = <[id := r]> (receipts sv).
Proof.
  unfold postReceipt.
  destruct (freshGuid uuids fuel (receipts sv) (drawn sv)) as [[id k]|] eqn:E;
    [|discriminate].
  intros [= <- <-]. apply freshGuid_spec in E as [Hfresh _].
  exists id. auto.
Qed.

(** A malformed request is answered 400 and leaves the store as it is. *)
Lemma postReceipt_bad_request fuel sv err :
  postReceipt uuids fuel sv (inl err)
  = Some ({| status := StatusBadRequest; json := H_message err |}, sv).
Proof. reflexivity. Qed.

(** A submission is answered as soon as some draw to come is not a key
    of the store. *)
Lemma postReceipt_terminates fuel sv r j :
  (drawn sv <= j)%nat -> receipts sv !! uuids j = None ->
  (j - drawn sv < fuel)%nat ->
  exists resp sv', postReceipt uuids fuel sv (inr r) = Some (resp, sv').
Proof.
  intros Hj Hfree Hfuel. unfold postReceipt.
  destruct (freshGuid_terminates (receipts sv) (drawn sv) j fuel Hj Hfree
              Hfuel) as (id & k & ->).
  eauto.
Qed.

Lemma submitAll_spec fuel rs : forall sv ids sv',
  submitAll uuids fuel sv rs = Some (ids, sv') ->
  length ids = length rs
  /\ NoDup ids
  /\ Forall (fun id => receipts sv !! id = None) ids
  /\ (forall id x, receipts sv !! id = Some x -> receipts sv' !! id = Some x)
  /\ Forall2 (fun id r => receipts sv' !! id = Some r) ids rs.
Proof.
  induction rs as [|r rs IH]; intros sv ids sv'; cbn [submitAll].
  - intros [= <- <-]. repeat split; auto; constructor.
  - destruct (postReceipt uuids fuel sv (inr r)) as [[resp sv1]|] eqn:E;
      [|discriminate].
    destruct (postReceipt_spec _ _ _ _ _ E) as (id & -> & Hfresh & Hsv1).
    destruct (submitAll uuids fuel sv1 rs) as [[ids1 sv2]|] eqn:E2;
      [|discriminate].
    intros [= <- <-].
    destruct (IH _ _ _ E2) as (Hlen & Hnd & Hall & Hkeep & Hget).
    assert (Hid : receipts sv1 !! id = Some r)
      by (rewrite Hsv1; apply lookup_insert_eq).
    repeat split.
    + simpl. congruence.
    + constructor; [|exact Hnd].
      intros Hin. rewrite Forall_forall in Hall.
      specialize (Hall _ Hin). congruence.
    + constructor; [exact Hfresh|].
      eapply Forall_impl; [exact Hall|]. intros id' H'. simpl in H'.
      rewrite Hsv1 in H'. apply lookup_insert_None in H'. tauto.
    + intros id' x Hx. apply Hkeep. rewrite Hsv1.
      rewrite lookup_insert_ne; [exact Hx|]. congruence.
    + constructor; [apply Hkeep, Hid | exact Hget].
Qed.

End StoreFacts.

(* ===================================================================== *)
(** ** The library models on examples *)
(* ===================================================================== *)

Section Examples.
Import strconv.

Lemma ParseFloat_values :
  map ParseFloat ["1.25"; "35.00"; "-0"; ".5"; "1e2"; "0x1p-2"; "1_0"]
  = [ (S754_finite false 5629499534213120 (-52), None);
      (S754_finite false 4925812092436480 (-47), None);
      (S754_zero true, None);
      (S754_finite false 4503599627370496 (-53), None);
      (S754_finite false 7036874417766400 (-46), None);
      (S754_finite false 4503599627370496 (-54), None);
      (S754_finite false 5629499534213120 (-49), None) ].
Proof. vm_compute. reflexivity. Qed.

Lemma ParseFloat_special_values :
  map ParseFloat ["Inf"; "-infinity"; "NaN"; "1e999"; "-1e999"; "1e-999"]
  = [ (Inf false, None); (Inf true, None); (NaN, None);
      (Inf false, Some ErrRange); (Inf true, Some ErrRange);
      (pos_zero, None) ].
Proof. vm_compute. reflexivity. Qed.

Lemma ParseFloat_syntax_errors :
  Forall (fun s => ParseFloat s = (pos_zero, Some ErrSyntax))
    [""; "abc"; "1.2.3"; "1e"; " 1"; "1 "; "$1.25"; "1,25"; "+nan";
     "infinit"; "0x1"; "_1"; "1__0"; "--1"]%string.
Proof. repeat constructor. Qed.

Lemma time_Parse_dates :
  map (fun s => option_map time.Day (time.Parse time.layout_date s))
    ["2022-01-01"; "2022-01-02"; "2024-02-29"; "2022-02-29"; "2022-13-01";
     "2022-1-01"; "2022-01-1"; "2022-01-00"; "22-01-01"; "2022/01/01";
     "2022-01-01 "; ""]%string
  = [Some 1; Some 2; Some 29; None; None; None; None; None; None; None;
     None; None].
Proof. vm_compute. reflexivity. Qed.

Lemma time_Parse_clocks :
  map (fun s => option_map (fun t => (time.Hour t, time.Minute t))
                  (time.Parse time.layout_clock s))
    ["13:01"; "14:00"; "15:59"; "16:00"; "9:05"; "24:00"; "12:60"; "1:5";
     "14:33:00"; "2pm"; ""]%string
  = [Some (13, 1); Some (14, 0); Some (15, 59); Some (16, 0); Some (9, 5);
     None; None; None; None; None; None].
Proof. vm_compute. reflexivity. Qed.

Lemma total_rules_examples :
  map (fun s => (roundDollarPoints s, quarterPoints s))
    ["35.00"; "9.00"; "1.25"; "35.35"; "0.10"; "-2.50"; "NaN"; "Inf";
     "abc"; ""]%string
  = [(50, 25); (50, 25); (0, 25); (0, 0); (0, 0); (0, 25); (0, 0); (0, 0);
     (50, 25); (50, 25)].
Proof. vm_compute. reflexivity. Qed.

Lemma item_rule_examples :
  map (fun p => itemPoints {| ShortDescription := fst p; Price := snd p |})
    [("Emils Cheese Pizza", "12.25"); ("   Klarbrunn 12-PK 12 FL OZ  ", "12.00");
     ("Mountain Dew 12PK", "6.49"); ("Dasani", "1.40"); ("", "5");
     ("   ", "0.01"); ("abc", "-0.5"); ("abc", "-1000"); ("abc", "abc")]%string
  = [3; 3; 0; 1; 1; 1; 0; -200; 0].
Proof. vm_compute. reflexivity. Qed.

End Examples.

(* ===================================================================== *)
(** ** The claims *)
(* ===================================================================== *)

(** C1 (as stated, refuted): the receipt of the end-to-end scenario does not
    score 31 points. *)
Lemma target_receipt_not_31 : receiptPoints targetReceipt <> 31.
Proof. vm_compute. discriminate. Qed.

(** C1 (amended): the receipt of the end-to-end scenario (retailer "Target",
    2022-01-01, 13:01, total "1.25", items "Pepsi - 12-oz" at "1.25" and
    "Dasani" at "1.40") scores exactly 43 points: 6 for the retailer, 25 for
    the quarter-multiple total, 5 for the pair of items, 1 for "Dasani"
    (6 bytes, ceil(1.40 * 0.2)), 6 for the odd day, and nothing for the
    round-dollar and time rules. *)
Theorem target_receipt_points :
  receiptPoints targetReceipt = 43
  /\ retailerPoints (Retailer targetReceipt) = 6
  /\ roundDollarPoints (Total targetReceipt) = 0
  /\ quarterPoints (Total targetReceipt) = 25
  /\ itemCountPoints (Items targetReceipt) = 5
  /\ map itemPoints (Items targetReceipt) = [0; 1]
  /\ time.Parse time.layout_date (PurchaseDate targetReceipt)
     = Some date_2022_01_01
  /\ datePoints date_2022_01_01 = 6
  /\ time.Parse time.layout_clock (PurchaseTime targetReceipt)
     = Some (clock 13 1)
  /\ timePoints (clock 13 1) = 0.
Proof. vm_compute. repeat split; reflexivity. Qed.

(** C2 (as stated, refuted): the total "abc" does not parse, and the
    round-dollar test still adds 50 points; a receipt that earns nothing else
    scores 75 with it. *)
Lemma round_dollar_unparsed_total :
  ~ roundDollarAsSpecified "abc" 0
  /\ snd (strconv.ParseFloat "abc") = Some strconv.ErrSyntax
  /\ roundDollarCheck (fst (strconv.ParseFloat "abc")) 0 = 50
  /\ receiptPoints (totalOnlyReceipt "abc") = 75.
Proof.
  split; [|vm_compute; repeat split; reflexivity].
  unfold roundDollarAsSpecified. intros [H _].
  assert (E : snd (strconv.ParseFloat "abc") = None)
    by (apply H; vm_compute; reflexivity).
  vm_compute in E. discriminate.
Qed.

(** C2 (amended): for every receipt, the round-dollar rule adds 50 points
    if and only if the value [ParseFloat] returns for the total has
    remainder exactly 0 modulo 1.00, that is, is zero or a finite whole
    number, whether or not the parse succeeded. In particular a total with a
    syntax error yields the value 0 and earns the 50 points; a total out of
    range yields an infinity and earns none. When the date and the time
    parse, the score is the wrapped sum of these points and of the other
    rules' points. *)
Theorem round_dollar_rule (r : Receipt) :
  let receiptTotal := fst (strconv.ParseFloat (Total r)) in
  let err := snd (strconv.ParseFloat (Total r)) in
  (forall points,
      roundDollarCheck receiptTotal points = Int.add points 50
      <-> Float64.eqb (Mod receiptTotal c_1_00) c_0 = true)
  /\ (forall points,
      roundDollarCheck receiptTotal points = points
      <-> Float64.eqb (Mod receiptTotal c_1_00) c_0 = false)
  /\ (forall points,
      roundDollarCheck receiptTotal points = Int.add points 50
      <-> multipleOfPow2 0 receiptTotal)
  /\ (err = Some strconv.ErrSyntax ->
      receiptTotal = pos_zero
      /\ roundDollarPoints (Total r) = 50
      /\ forall points,
           roundDollarCheck receiptTotal points = Int.add points 50)
  /\ (err = Some strconv.ErrRange ->
      roundDollarPoints (Total r) = 0
      /\ forall points, roundDollarCheck receiptTotal points = points)
  /\ (forall d t,
      time.Parse time.layout_date (PurchaseDate r) = Some d ->
      time.Parse time.layout_clock (PurchaseTime r) = Some t ->
      receiptPoints r
      = Int.wrap (roundDollarPoints (Total r)
                  + (retailerPoints (Retailer r) + quarterPoints (Total r)
                     + itemCountPoints (Items r)
                     + descriptionPoints (Items r)
                     + datePoints d + timePoints t))).
Proof.
  intros receiptTotal err.
  assert (Hadd : forall points,
      roundDollarCheck receiptTotal points = Int.add points 50
      <-> Float64.eqb (Mod receiptTotal c_1_00) c_0 = true).
  { intros points. unfold roundDollarCheck.
    destruct (Float64.eqb _ _); split; auto; try discriminate.
    intros E. exfalso. symmetry in E. revert E.
    apply IntFacts.add_neq. lia. }
  split; [exact Hadd|]. split; [|split; [|split; [|split]]].
  - intros points. unfold roundDollarCheck.
    destruct (Float64.eqb _ _); split; auto; try discriminate.
    intros E. exfalso. revert E. apply IntFacts.add_neq. lia.
  - intros points. rewrite Hadd. apply roundDollar_whole.
    apply ParseFloat_wellFormed.
  - intros E. pose proof (ParseFloat_syntax _ E) as Hz.
    split; [exact Hz|]. split.
    + unfold roundDollarPoints. rewrite Hz. reflexivity.
    + intros points. subst receiptTotal. rewrite Hz. reflexivity.
  - intros E. apply ParseFloat_range in E as [sign E]. split.
    + unfold roundDollarPoints. rewrite E. reflexivity.
    + intros points. subst receiptTotal. rewrite E. reflexivity.
  - intros d t Hd Ht.
    rewrite (receiptPoints_sum r d t Hd Ht). f_equal. unfold rulesSum. lia.
Qed.

Lemma round_dollar_rule_witness :
  snd (strconv.ParseFloat (Total (totalOnlyReceipt "abc")))
  = Some strconv.ErrSyntax
  /\ time.Parse time.layout_date (PurchaseDate (totalOnlyReceipt "abc"))
     = Some date_2022_01_02
  /\ time.Parse time.layout_clock (PurchaseTime (totalOnlyReceipt "abc"))
     = Some (clock 13 1)
  /\ roundDollarPoints "abc" = 50
  /\ receiptPoints (totalOnlyReceipt "abc") = 75.
Proof.
  pose proof (round_dollar_rule (totalOnlyReceipt "abc"))
    as (_ & _ & _ & Hs & _ & Hsum).
  split; [reflexivity|]. split; [reflexivity|]. split; [reflexivity|].
  split; [apply (Hs eq_refl)|].
  rewrite (Hsum date_2022_01_02 (clock 13 1) eq_refl eq_refl). reflexivity.
Defined.

(** C10 (as stated, refuted): the total "1e999" does not parse (the value is
    out of range), and the two total rules add nothing: the failed parse
    yields +Inf, not 0. *)
Lemma out_of_range_total_earns_nothing :
  snd (strconv.ParseFloat "1e999") = Some strconv.ErrRange
  /\ fst (strconv.ParseFloat "1e999") = Inf false
  /\ time.Parse time.layout_date (PurchaseDate (totalOnlyReceipt "1e999"))
     = Some date_2022_01_02
  /\ time.Parse time.layout_clock (PurchaseTime (totalOnlyReceipt "1e999"))
     = Some (clock 13 1)
  /\ totalChecks "1e999" 0 = 0
  /\ totalChecks "1e999" 0 <> Int.add 0 75
  /\ receiptPoints (totalOnlyReceipt "1e999") = 0.
Proof. vm_compute. repeat split; try reflexivity. discriminate. Qed.

(** C10 (amended): for every receipt whose total is not syntactically a
    number ([ParseFloat] fails with a syntax error) and whose date and time
    parse, the two total rules together contribute exactly 75 points, because
    the failed parse yields the value 0, which passes both remainder tests. *)
Theorem malformed_total_earns_75 (r : Receipt) (d t : time.Time) :
  time.Parse time.layout_date (PurchaseDate r) = Some d ->
  time.Parse time.layout_clock (PurchaseTime r) = Some t ->
  snd (strconv.ParseFloat (Total r)) = Some strconv.ErrSyntax ->
  fst (strconv.ParseFloat (Total r)) = pos_zero
  /\ roundDollarPoints (Total r) = 50
  /\ quarterPoints (Total r) = 25
  /\ (forall points, totalChecks (Total r) points = Int.add (Int.add points 50) 25)
  /\ (forall points, Int.in_range points ->
        totalChecks (Total r) points = Int.add points 75)
  /\ receiptPoints r
     = Int.wrap (75 + (retailerPoints (Retailer r)
                       + itemCountPoints (Items r)
                       + descriptionPoints (Items r)
                       + datePoints d + timePoints t)).
Proof.
  intros Hd Ht He. pose proof (ParseFloat_syntax _ He) as Hz.
  assert (H50 : roundDollarPoints (Total r) = 50)
    by (unfold roundDollarPoints; rewrite Hz; reflexivity).
  assert (H25 : quarterPoints (Total r) = 25)
    by (unfold quarterPoints; rewrite Hz; reflexivity).
  repeat split; auto.
  - intros points. unfold totalChecks. rewrite Hz. reflexivity.
  - intros points Hp. rewrite totalChecks_sum by assumption.
    rewrite H50, H25. unfold Int.add. f_equal. lia.
  - rewrite (receiptPoints_sum r d t Hd Ht). f_equal. unfold rulesSum.
    rewrite H50, H25. lia.
Qed.

Lemma malformed_total_earns_75_witness :
  time.Parse time.layout_date (PurchaseDate (totalOnlyReceipt "abc"))
  = Some date_2022_01_02
  /\ time.Parse time.layout_clock (PurchaseTime (totalOnlyReceipt "abc"))
     = Some (clock 13 1)
  /\ snd (strconv.ParseFloat (Total (totalOnlyReceipt "abc")))
     = Some strconv.ErrSyntax
  /\ totalChecks "abc" 0 = 75.
Proof.
  pose proof (malformed_total_earns_75 (totalOnlyReceipt "abc")
                date_2022_01_02 (clock 13 1) eq_refl eq_refl eq_refl)
    as (_ & _ & _ & _ & H & _).
  split; [reflexivity|]. split; [reflexivity|]. split; [reflexivity|].
  apply (H 0). apply IntFacts.zero_in_range.
Defined.

(** C3 (as stated, refuted): the date and the time of this receipt parse, and
    its one item, priced "-1000" with a description of three bytes,
    contributes ceil(-1000 * 0.2) = -200: the score is negative. *)
Lemma negative_price_negative_score :
  time.Parse time.layout_date (PurchaseDate (oneItemReceipt "-1000"))
  = Some date_2022_01_02
  /\ time.Parse time.layout_clock (PurchaseTime (oneItemReceipt "-1000"))
     = Some (clock 13 1)
  /\ receiptPoints (oneItemReceipt "-1000") = -200
  /\ ~ (0 <= receiptPoints (oneItemReceipt "-1000")).
Proof. vm_compute. repeat split; try reflexivity. intros H. apply H. reflexivity. Qed.

(** C3 (amended): for every receipt whose date and time parse, the score is
    an integer greater than or equal to 0, and equal to the sum of the rules,
    provided that no item contributes a negative number of points (the
    conversion of ceil(price * 0.2) to [int] is at least 0 for every item
    whose trimmed description length is a multiple of 3) and that the sum of
    the contributions does not exceed the greatest [int]. Retailer strings,
    totals and item counts are arbitrary. *)
Theorem score_nonnegative (r : Receipt) (d t : time.Time) :
  time.Parse time.layout_date (PurchaseDate r) = Some d ->
  time.Parse time.layout_clock (PurchaseTime r) = Some t ->
  Forall (fun it => 0 <= itemPoints it) (Items r) ->
  rulesSum r d t <= Int.max_int ->
  0 <= receiptPoints r /\ receiptPoints r = rulesSum r d t.
Proof.
  intros Hd Ht Hitems Hmax.
  rewrite (receiptPoints_sum r d t Hd Ht).
  assert (H0 : 0 <= rulesSum r d t).
  { unfold rulesSum.
    pose proof (retailerPoints_bound (Retailer r)).
    pose proof (roundDollarPoints_nonneg (Total r)).
    pose proof (quarterPoints_nonneg (Total r)).
    pose proof (itemCountPoints_nonneg (Items r)).
    pose proof (descriptionPoints_nonneg _ Hitems).
    pose proof (datePoints_nonneg d).
    pose proof (timePoints_nonneg t). lia. }
  rewrite IntFacts.wrap_small; [auto|].
  unfold Int.in_range, Int.min_int. lia.
Qed.

Lemma score_nonnegative_witness :
  time.Parse time.layout_date (PurchaseDate targetReceipt)
  = Some date_2022_01_01
  /\ time.Parse time.layout_clock (PurchaseTime targetReceipt)
     = Some (clock 13 1)
  /\ Forall (fun it => 0 <= itemPoints it) (Items targetReceipt)
  /\ rulesSum targetReceipt date_2022_01_01 (clock 13 1) <= Int.max_int
  /\ 0 <= receiptPoints targetReceipt.
Proof.
  assert (Hi : Forall (fun it => 0 <= itemPoints it) (Items targetReceipt)).
  { repeat constructor; vm_compute; discriminate. }
  assert (Hm : rulesSum targetReceipt date_2022_01_01 (clock 13 1)
               <= Int.max_int) by (vm_compute; discriminate).
  split; [reflexivity|]. split; [reflexivity|].
  split; [exact Hi|]. split; [exact Hm|].
  apply (score_nonnegative targetReceipt date_2022_01_01 (clock 13 1)
           eq_refl eq_refl Hi Hm).
Defined.

(** C4: for every receipt whose purchase date fails to parse as
    "2006-01-02" (YYYY-MM-DD) or whose purchase time fails to parse as
    "15:04" (HH:MM), the scoring function returns exactly 0, whatever the
    retailer, total, item count and descriptions had accumulated. *)
Theorem parse_failure_scores_zero (r : Receipt) :
  time.Parse time.layout_date (PurchaseDate r) = None
  \/ time.Parse time.layout_clock (PurchaseTime r) = None ->
  receiptPoints r = 0.
Proof.
  intros [H|H]; unfold receiptPoints.
  - rewrite H. reflexivity.
  - rewrite H. destruct (time.Parse time.layout_date _); reflexivity.
Qed.

Lemma parse_failure_scores_zero_witness :
  time.Parse time.layout_date (PurchaseDate badDateReceipt) = None
  /\ descriptionCheck (Items badDateReceipt)
       (itemsCheck (Items badDateReceipt)
          (totalChecks (Total badDateReceipt)
             (retailerCheck (Retailer badDateReceipt) 0))) = 37
  /\ receiptPoints badDateReceipt = 0.
Proof.
  split; [reflexivity|]. split; [reflexivity|].
  apply (parse_failure_scores_zero badDateReceipt). left. reflexivity.
Defined.

(** C5 (as stated, refuted): the price "1e999" does not parse (it is out of
    range); [ParseFloat] yields +Inf for it, and the item, whose description
    has three bytes, does not contribute 0: the conversion of +Inf to [int]
    gives the least [int]. *)
Lemma out_of_range_price_not_zero :
  snd (strconv.ParseFloat (Price (threeByteItem "1e999")))
  = Some strconv.ErrRange
  /\ fst (strconv.ParseFloat (Price (threeByteItem "1e999"))) = Inf false
  /\ len (strings.Trim (bytes (ShortDescription (threeByteItem "1e999"))) " ")
     mod 3 = 0
  /\ descriptionStep 0 (threeByteItem "1e999") = Int.min_int
  /\ descriptionStep 0 (threeByteItem "1e999") <> 0
  /\ receiptPoints (oneItemReceipt "1e999") = Int.min_int.
Proof. vm_compute. repeat split; try reflexivity. discriminate. Qed.

(** C5 (amended): for every receipt and each of its items, if the item's
    description with leading and trailing spaces removed has a length (in
    bytes) that is a multiple of 3 (including 0), the item contributes
    int(ceil(parsedPrice * 0.2)) points, the product being the float64 one:
    the least integer greater than or equal to the product whenever that
    integer is an [int]. A price string with a syntax error is read as 0 and
    contributes 0; items whose trimmed description length is not a multiple
    of 3 contribute 0. The loop adds the contributions of the items, and when
    the date and the time parse the score is the wrapped sum of these and of
    the other rules' points. *)
Theorem description_rule (r : Receipt) :
  (forall it points,
      len (strings.Trim (bytes (ShortDescription it)) " ") mod 3 = 0 ->
      descriptionStep points it
      = Int.add points
          (to_int (Ceil (Float64.mul (fst (strconv.ParseFloat (Price it)))
                           c_0_2))))
  /\ (forall it points c,
      len (strings.Trim (bytes (ShortDescription it)) " ") mod 3 = 0 ->
      ceilingOf (Float64.mul (fst (strconv.ParseFloat (Price it))) c_0_2) c ->
      Int.in_range c ->
      descriptionStep points it = Int.add points c /\ itemPoints it = c)
  /\ (forall it points,
      len (strings.Trim (bytes (ShortDescription it)) " ") mod 3 = 0 ->
      snd (strconv.ParseFloat (Price it)) = Some strconv.ErrSyntax ->
      descriptionStep points it = Int.add points 0 /\ itemPoints it = 0)
  /\ (forall it points,
      len (strings.Trim (bytes (ShortDescription it)) " ") mod 3 <> 0 ->
      descriptionStep points it = points /\ itemPoints it = 0)
  /\ (forall points, Int.in_range points ->
      descriptionCheck (Items r) points
      = Int.wrap (points + descriptionPoints (Items r)))
  /\ (forall d t,
      time.Parse time.layout_date (PurchaseDate r) = Some d ->
      time.Parse time.layout_clock (PurchaseTime r) = Some t ->
      receiptPoints r
      = Int.wrap (descriptionPoints (Items r)
                  + (retailerPoints (Retailer r)
                     + roundDollarPoints (Total r) + quarterPoints (Total r)
                     + itemCountPoints (Items r)
                     + datePoints d + timePoints t))).
Proof.
  assert (Hrem : forall it,
             Int.rem (len (strings.Trim (bytes (ShortDescription it)) " ")) 3
             = len (strings.Trim (bytes (ShortDescription it)) " ") mod 3).
  { intros it. unfold Int.rem. apply Z.rem_mod_nonneg; unfold len; lia. }
  split; [|split; [|split; [|split; [|split]]]].
  - intros it points H. unfold descriptionStep. rewrite Hrem, H. reflexivity.
  - intros it points c H Hc Hr.
    pose proof (to_int_Ceil _ c (mul_wellFormed _ _) Hc Hr) as E.
    unfold descriptionStep, itemPoints. rewrite Hrem, H, E. auto.
  - intros it points H E. split; [|apply itemPoints_syntax_error, E].
    unfold descriptionStep. rewrite Hrem, H, (ParseFloat_syntax _ E).
    reflexivity.
  - intros it points H. unfold descriptionStep, itemPoints. rewrite Hrem.
    destruct (Z.eqb_spec (len (strings.Trim (bytes (ShortDescription it)) " ")
                            mod 3) 0); [contradiction | split; reflexivity].
  - intros points Hp. apply descriptionCheck_sum, Hp.
  - intros d t Hd Ht.
    rewrite (receiptPoints_sum r d t Hd Ht). f_equal. unfold rulesSum. lia.
Qed.

Lemma description_rule_witness :
  len (strings.Trim (bytes "   Klarbrunn 12-PK 12 FL OZ  ") " ") mod 3 = 0
  /\ descriptionStep 0
       {| ShortDescription := "   Klarbrunn 12-PK 12 FL OZ  ";
          Price := "12.00" |} = 3
  /\ descriptionCheck (Items targetReceipt) 0 = 1.
Proof.
  pose proof (description_rule targetReceipt) as (H1 & _ & _ & _ & H & _).
  split; [reflexivity|]. split.
  - rewrite H1 by reflexivity. reflexivity.
  - rewrite (H 0 IntFacts.zero_in_range). reflexivity.
Defined.

(** C6: for every receipt whose purchase time parses as hour:minute, the
    time-window rule adds exactly 10 points if and only if the parsed hour is
    at least 14 and strictly less than 16, whatever the minute, and adds
    nothing otherwise; when the date parses too, so that the time check is
    reached, this is what the score gains over the points of the other
    rules. So "14:00" earns the 10 points and "16:00" earns none. *)
Theorem time_window_rule (r : Receipt) (t : time.Time) :
  time.Parse time.layout_clock (PurchaseTime r) = Some t ->
  (forall points,
      (timeCheck t points = Int.add points 10 <-> 14 <= time.Hour t < 16)
      /\ (timeCheck t points = points <-> ~ (14 <= time.Hour t < 16)))
  /\ (forall d,
      time.Parse time.layout_date (PurchaseDate r) = Some d ->
      receiptPoints r = timeCheck t (pointsBeforeTime r d)
      /\ (receiptPoints r = Int.add (pointsBeforeTime r d) 10
          <-> 14 <= time.Hour t < 16)
      /\ (receiptPoints r = pointsBeforeTime r d
          <-> ~ (14 <= time.Hour t < 16))
      /\ receiptPoints r
         = Int.wrap (timePoints t
                     + (retailerPoints (Retailer r)
                        + roundDollarPoints (Total r)
                        + quarterPoints (Total r)
                        + itemCountPoints (Items r)
                        + descriptionPoints (Items r) + datePoints d)))
  /\ (time.Parse time.layout_clock "14:00" = Some (clock 14 0)
      /\ timeCheck (clock 14 0) 0 = 10
      /\ time.Parse time.layout_clock "16:00" = Some (clock 16 0)
      /\ timeCheck (clock 16 0) 0 = 0).
Proof.
  intros Ht.
  assert (Hwin : forall points,
      (timeCheck t points = Int.add points 10 <-> 14 <= time.Hour t < 16)
      /\ (timeCheck t points = points <-> ~ (14 <= time.Hour t < 16))).
  { intros points. rewrite timeCheck_eq.
    assert (Hneq : Int.add points 10 <> points)
      by (apply IntFacts.add_neq; lia).
    destruct (Z.leb_spec 14 (time.Hour t)), (Z.ltb_spec (time.Hour t) 16);
      simpl; repeat split; intros; try lia; auto; exfalso; auto. }
  split; [exact Hwin|].
  split; [|repeat split; reflexivity].
  intros d Hd.
  pose proof (receiptPoints_parsed r d t Hd Ht) as E.
  split; [exact E|]. rewrite E at 1 2.
  split; [apply Hwin|]. split; [apply Hwin|].
  rewrite (receiptPoints_sum r d t Hd Ht). f_equal. unfold rulesSum. lia.
Qed.

Lemma time_window_rule_witness :
  time.Parse time.layout_clock (PurchaseTime (targetAt "14:00"))
  = Some (clock 14 0)
  /\ time.Parse time.layout_date (PurchaseDate (targetAt "14:00"))
     = Some date_2022_01_01
  /\ receiptPoints (targetAt "14:00")
     = Int.add (pointsBeforeTime (targetAt "14:00") date_2022_01_01) 10.
Proof.
  pose proof (time_window_rule (targetAt "14:00") (clock 14 0) eq_refl)
    as (_ & H & _).
  destruct (H date_2022_01_01 eq_refl) as (_ & Hin & _).
  split; [reflexivity|]. split; [reflexivity|].
  apply Hin. simpl. lia.
Defined.

(** The examples of the time window: "14:00" and "14:33" earn the 10 points,
    "13:01" and "16:00" do not. *)
Lemma time_window_examples :
  map (fun s => receiptPoints (targetAt s)) ["13:01"; "14:00"; "14:33"; "15:59"; "16:00"]%string
  = [43; 53; 53; 53; 43].
Proof. vm_compute. reflexivity. Qed.

(** C7: for every receipt, the retailer rule contributes exactly the number
    of characters of the retailer string that are ASCII letters or ASCII
    digits: the runes met by the loop that pass the test are as many as the
    bytes of the string that are ASCII letters or digits, every other
    character (space, punctuation, non-ASCII, ill-formed UTF-8) counting for
    nothing; e.g. "M&M Corner Market" contributes exactly 14. The length of
    a Go string fits in an [int]. *)
Theorem retailer_rule (r : Receipt) :
  len (bytes (Retailer r)) <= Int.max_int ->
  let n := Z.of_nat (length (filter alnumByte (bytes (Retailer r)))) in
  retailerPoints (Retailer r) = n
  /\ retailerCheck (Retailer r) 0 = n
  /\ (forall points, Int.in_range points ->
        retailerCheck (Retailer r) points = Int.wrap (points + n))
  /\ (forall d t,
      time.Parse time.layout_date (PurchaseDate r) = Some d ->
      time.Parse time.layout_clock (PurchaseTime r) = Some t ->
      receiptPoints r
      = Int.wrap (n + (roundDollarPoints (Total r) + quarterPoints (Total r)
                       + itemCountPoints (Items r)
                       + descriptionPoints (Items r)
                       + datePoints d + timePoints t)))
  /\ retailerCheck "M&M Corner Market" 0 = 14.
Proof.
  intros Hlen n.
  assert (Hn : retailerPoints (Retailer r) = n)
    by apply retailerPoints_bytes.
  pose proof (retailerPoints_bound (Retailer r)) as Hb.
  split; [exact Hn|]. split; [|split; [|split]].
  - rewrite retailerCheck_sum by apply IntFacts.zero_in_range.
    rewrite Hn in *. apply IntFacts.wrap_small.
    unfold Int.in_range, Int.min_int. lia.
  - intros points Hp. rewrite retailerCheck_sum by assumption.
    rewrite Hn. reflexivity.
  - intros d t Hd Ht.
    rewrite (receiptPoints_sum r d t Hd Ht). f_equal. unfold rulesSum.
    rewrite Hn. lia.
  - reflexivity.
Qed.

Lemma retailer_rule_witness :
  len (bytes (Retailer marketReceipt)) <= Int.max_int
  /\ retailerPoints (Retailer marketReceipt) = 14
  /\ retailerCheck (Retailer marketReceipt) 0 = 14.
Proof.
  assert (Hl : len (bytes (Retailer marketReceipt)) <= Int.max_int)
    by (vm_compute; discriminate).
  pose proof (retailer_rule marketReceipt Hl) as (H1 & H2 & _).
  split; [exact Hl|]. split.
  - rewrite H1. reflexivity.
  - rewrite H2. reflexivity.
Defined.

(** A retailer with a two-byte character, a space and punctuation: only
    the ASCII letters and digits count. *)
Lemma retailer_non_ascii_example :
  retailerCheck "Café 24/7" 0 = 6.
Proof. vm_compute. reflexivity. Qed.

(** C8: for every store and every identifier that is not a key of the store,
    the query answers 404 with the message "Receipt not found" and no points
    value (in particular not a score of 0); if the identifier is a key, it
    answers 200 with the points [receiptPoints] gives for the stored
    receipt. *)
Theorem query_not_found (receipts : gmap string Receipt) (receiptId : string) :
  (receipts !! receiptId = None ->
     getReceiptPoints receipts receiptId
     = {| status := StatusNotFound; json := H_message "Receipt not found" |}
     /\ forall points, json (getReceiptPoints receipts receiptId)
                       <> H_points points)
  /\ (forall currReceipt, receipts !! receiptId = Some currReceipt ->
        getReceiptPoints receipts receiptId
        = {| status := StatusOK;
             json := H_points (receiptPoints currReceipt) |}).
Proof.
  unfold getReceiptPoints. split.
  - intros ->. split; [reflexivity | discriminate].
  - intros currReceipt ->. reflexivity.
Qed.

Lemma query_not_found_witness :
  targetStore !! "adb6b560-0eef-42bc-9d16-df48f30e89b2" = None
  /\ getReceiptPoints targetStore "adb6b560-0eef-42bc-9d16-df48f30e89b2"
     = {| status := 404; json := H_message "Receipt not found" |}
  /\ targetStore !! "7fb1377b-b223-49d9-a31a-5a02701dd310"
     = Some targetReceipt
  /\ getReceiptPoints targetStore "7fb1377b-b223-49d9-a31a-5a02701dd310"
     = {| status := 200; json := H_points 43 |}.
Proof.
  assert (Habsent :
            targetStore !! "adb6b560-0eef-42bc-9d16-df48f30e89b2" = None)
    by reflexivity.
  assert (Hpresent : targetStore !! "7fb1377b-b223-49d9-a31a-5a02701dd310"
                     = Some targetReceipt) by reflexivity.
  split; [exact Habsent|]. split; [|split; [exact Hpresent|]].
  - apply (query_not_found targetStore
             "adb6b560-0eef-42bc-9d16-df48f30e89b2"), Habsent.
  - destruct (query_not_found targetStore
                "7fb1377b-b223-49d9-a31a-5a02701dd310") as [_ H].
    rewrite (H targetReceipt Hpresent). reflexivity.
Defined.

(** C9: for every sequence of successful submissions made one after the
    other, each submission answers 201 with an identifier that is not a key
    of the store at the moment of its insertion, and stores the receipt under
    it; the identifiers of the sequence are pairwise distinct and new to the
    initial store, receipts already stored are kept, and each identifier
    queries back to the score of the receipt stored under it. In particular
    submitting the same payload twice yields two distinct identifiers that
    query back to the same score. *)
Theorem submissions_unique (uuids : nat -> string) (fuel : nat)
  (sv : server) (rs : list Receipt) (ids : list string) (sv' : server) :
  submitAll uuids fuel sv rs = Some (ids, sv') ->
  (forall sv0 r resp sv1,
      postReceipt uuids fuel sv0 (inr r) = Some (resp, sv1) ->
      exists id,
        resp = {| status := StatusCreated; json := H_id id |}
        /\ receipts sv0 !! id = None
        /\ receipts sv1 = <[id := r]> (receipts sv0))
  /\ length ids = length rs
  /\ NoDup ids
  /\ Forall (fun id => receipts sv !! id = None) ids
  /\ Forall2 (fun id r =>
                getReceiptPoints (receipts sv') id
                = {| status := StatusOK; json := H_points (receiptPoints r) |})
       ids rs
  /\ (forall r, rs = [r; r] ->
        exists id1 id2,
          ids = [id1; id2] /\ id1 <> id2
          /\ getReceiptPoints (receipts sv') id1
             = {| status := StatusOK; json := H_points (receiptPoints r) |}
          /\ getReceiptPoints (receipts sv') id2
             = {| status := StatusOK; json := H_points (receiptPoints r) |}).
Proof.
  intros H.
  destruct (submitAll_spec uuids fuel rs sv ids sv' H)
    as (Hlen & Hnd & Hall & Hkeep & Hget).
  assert (Hq : Forall2 (fun id r =>
                getReceiptPoints (receipts sv') id
                = {| status := StatusOK; json := H_points (receiptPoints r) |})
       ids rs).
  { eapply Forall2_impl; [exact Hget|]. intros id r Hid. simpl in Hid.
    unfold getReceiptPoints. rewrite Hid. reflexivity. }
  split; [intros sv0 r resp sv1; apply postReceipt_spec|].
  repeat split; auto.
  intros r ->.
  destruct ids as [|id1 [|id2 [|id3 ids]]]; try discriminate.
  exists id1, id2.
  inversion Hnd as [|? ? Hnotin _]; subst.
  inversion Hq as [|? ? ? ? Hq1 Hq']; subst.
  inversion Hq' as [|? ? ? ? Hq2 _]; subst.
  repeat split; auto.
  intros ->. apply Hnotin. constructor.
Qed.

Lemma submissions_unique_witness :
  submitAll repeatingUuids 3 emptyServer [targetReceipt; targetReceipt]
  = Some (["7fb1377b-b223-49d9-a31a-5a02701dd310";
           "adb6b560-0eef-42bc-9d16-df48f30e89b2"]%string,
          {| receipts :=
               <["adb6b560-0eef-42bc-9d16-df48f30e89b2" := targetReceipt]>
                 (<["7fb1377b-b223-49d9-a31a-5a02701dd310" := targetReceipt]> ∅);
             drawn := 3 |})
  /\ NoDup ["7fb1377b-b223-49d9-a31a-5a02701dd310";
            "adb6b560-0eef-42bc-9d16-df48f30e89b2"]%string.
Proof.
  assert (E : submitAll repeatingUuids 3 emptyServer
                [targetReceipt; targetReceipt]
              = Some (["7fb1377b-b223-49d9-a31a-5a02701dd310";
                       "adb6b560-0eef-42bc-9d16-df48f30e89b2"]%string,
                      {| receipts :=
                           <["adb6b560-0eef-42bc-9d16-df48f30e89b2"
                             := targetReceipt]>
                             (<["7fb1377b-b223-49d9-a31a-5a02701dd310"
                                := targetReceipt]> ∅);
                         drawn := 3 |}))
    by (vm_compute; reflexivity).
  split; [exact E|].
  apply (submissions_unique _ _ _ _ _ _ E).
Defined.

(* ===================================================================== *)
(** ** Further properties of the scoring rules and of the collection *)
(* ===================================================================== *)

Lemma itemCountPoints_two a b items :
  itemCountPoints (a :: b :: items) = itemCountPoints items + 5.
Proof.
  unfold itemCountPoints. cbn [length].
  replace (Z.of_nat (S (S (length items)))) with (Z.of_nat (length items) + 1 * 2) by lia.
  rewrite Z.div_add by lia. lia.
Qed.

Lemma whole_is_quarter_multiple x :
  multipleOfPow2 0 x -> multipleOfPow2 (-2) x.
Proof.
  destruct x as [s|s| |s m e]; simpl; auto.
  intros [H|H]; [left; lia|].
  destruct (Z_le_gt_dec (-2) e) as [|He]; [left; lia | right].
  assert (He' : 0 < - e - 2) by lia.
  replace (0 - e) with ((-2 - e) + 2) in H by lia.
  rewrite Z.pow_add_r in H by lia.
  assert (0 < 2 ^ (-2 - e)) by (apply Z.pow_pos_nonneg; lia).
  apply Z.mod_divide in H; [|lia].
  apply Z.mod_divide; [lia|].
  destruct H as [k Hk]. exists (k * 2 ^ 2). lia.
Qed.

Lemma isDig_digit c : isDig c = true -> 0 <= time.digit c <= 9.
Proof.
  unfold isDig, byte_between, time.digit.
  change (byte_val "0") with 48. change (byte_val "9") with 57. lia.
Qed.

Lemma getnum_fixed a b t :
  time.getnum (a :: b :: t) true
  = if isDig a && isDig b then Some (time.digit a * 10 + time.digit b, t)
    else None.
Proof.
  unfold time.getnum, time.isDigit, isDig. simpl.
  destruct (byte_between "0" "9" a), (byte_between "0" "9" b); reflexivity.
Qed.

Lemma getnum_fixed_short t :
  (length t < 2)%nat -> time.getnum t true = None.
Proof.
  destruct t as [|a [|b t]]; simpl; try lia; intros _; auto.
  unfold time.getnum, time.isDigit. simpl.
  destruct (byte_between "0" "9" a); reflexivity.
Qed.

Lemma leadingInt_step c s x :
  0 <= x <= 999 ->
  time.leadingInt (c :: s) x
  = if isDig c then time.leadingInt s (x * 10 + time.digit c)
    else Some (x, c :: s).
Proof.
  intros Hx. cbn [time.leadingInt]. fold (isDig c).
  destruct (isDig c) eqn:Hc; [|reflexivity].
  pose proof (isDig_digit c Hc).
  change (2 ^ 63 / 10) with 922337203685477580.
  change (2 ^ 63) with 9223372036854775808.
  destruct (Z.ltb_spec 922337203685477580 x); [lia|].
  destruct (Z.ltb_spec 9223372036854775808 (x * 10 + time.digit c)); [lia|].
  reflexivity.
Qed.

Lemma atoi_four a b c d :
  isDig a = true ->
  time.atoi [a; b; c; d]
  = if isDig b && isDig c && isDig d
    then Some (time.digit a * 1000 + time.digit b * 100
               + time.digit c * 10 + time.digit d)
    else None.
Proof.
  intros Ha. pose proof (isDig_digit a Ha) as Hda.
  assert (Hsign : Ascii.eqb a "-" || Ascii.eqb a "+" = false).
  { destruct (Ascii.eqb_spec a "-") as [->|]; [discriminate Ha|].
    destruct (Ascii.eqb_spec a "+") as [->|]; [discriminate Ha|].
    reflexivity. }
  assert (Hneg : Ascii.eqb a "-" = false)
    by (destruct (Ascii.eqb a "-"); [discriminate Hsign | reflexivity]).
  unfold time.atoi. rewrite Hsign, Hneg.
  rewrite leadingInt_step, Ha by lia.
  rewrite leadingInt_step by lia.
  destruct (isDig b) eqn:Hb; [|reflexivity].
  pose proof (isDig_digit b Hb).
  rewrite leadingInt_step by lia.
  destruct (isDig c) eqn:Hc; [|reflexivity].
  pose proof (isDig_digit c Hc).
  rewrite leadingInt_step by lia.
  destruct (isDig d) eqn:Hd; [|reflexivity].
  cbn [time.leadingInt andb]. f_equal. lia.
Qed.

Lemma chunk_year L y1 y2 y3 y4 v t :
  time.parse_chunks (time.stdLongYear :: L) (y1 :: y2 :: y3 :: y4 :: v) t
  = if isDig y1 && isDig y2 && isDig y3 && isDig y4
    then time.parse_chunks L v
           {| time.year := time.digit y1 * 1000 + time.digit y2 * 100
                           + time.digit y3 * 10 + time.digit y4;
              time.month := time.month t; time.day := time.day t;
              time.hour := time.hour t; time.min := time.min t |}
    else None.
Proof.
  cbn [time.parse_chunks]. unfold len. cbn [length].
  replace (Z.of_nat (S (S (S (S (length v))))) <? 4) with false
    by (symmetry; apply Z.ltb_ge; lia).
  cbn [orb]. unfold time.isDigit. cbn [nth_error]. fold (isDig y1).
  destruct (isDig y1) eqn:H1; cbn [negb andb]; [|reflexivity].
  cbn [firstn skipn]. rewrite atoi_four by assumption.
  destruct (isDig y2 && isDig y3 && isDig y4); reflexivity.
Qed.

Lemma chunk_year_short L v t :
  (length v < 4)%nat ->
  time.parse_chunks (time.stdLongYear :: L) v t = None.
Proof.
  intros H. cbn [time.parse_chunks].
  replace (len v <? 4) with true
    by (symmetry; apply Z.ltb_lt; unfold len; lia).
  reflexivity.
Qed.

Lemma getnum_free a t :
  time.getnum (a :: t) false
  = if isDig a then
      match t with
      | b :: t' => if isDig b
                   then Some (time.digit a * 10 + time.digit b, t')
                   else Some (time.digit a, t)
      | [] => Some (time.digit a, [])
      end
    else None.
Proof.
  unfold time.getnum, time.isDigit, isDig. simpl.
  destruct (byte_between "0" "9" a); [|reflexivity].
  destruct t as [|b t]; simpl; [reflexivity|].
  destruct (byte_between "0" "9" b); reflexivity.
Qed.

Ltac parse_cbn :=
  cbn [time.parse_chunks time.getnum time.isDigit nth_error negb andb orb
       time.month time.day time.year time.hour time.min].

Ltac bool_cases :=
  repeat match goal with
         | |- context [Ascii.eqb ?a ?b] =>
             destruct (Ascii.eqb_spec a b);
             [subst; try change (byte_between "0" "9" ":") with false|];
             parse_cbn
         | |- context [byte_between "0" "9" ?c] =>
             destruct (byte_between "0" "9" c) eqn:?; parse_cbn
         end.

Ltac z_cases :=
  repeat match goal with
         | |- context [?a <=? ?b] => destruct (Z.leb_spec a b); parse_cbn
         | |- context [?a <? ?b] => destruct (Z.ltb_spec a b); parse_cbn
         | H : context [?a <? ?b] |- _ => destruct (Z.ltb_spec a b)
         end.

Ltac digit_facts :=
  repeat match goal with
         | H : byte_between "0" "9" ?c = true |- _ => apply isDig_digit in H
         end.

Lemma Parse_date_eq s : time.Parse time.layout_date s = dateOf s.
Proof.
  unfold time.Parse, dateOf, dateFields, time.layout_date.
  destruct (bytes s) as [|y1 [|y2 [|y3 [|y4 l]]]];
    try (rewrite chunk_year_short by (simpl; lia); reflexivity).
  rewrite chunk_year. unfold isDig.
  destruct l as [|h1 [|m1 [|m2 [|h2 [|d1 [|d2 [|x l]]]]]]];
    parse_cbn; bool_cases; try reflexivity; z_cases; try reflexivity.
  all: digit_facts; first [lia | congruence].
Qed.

Lemma Parse_clock_eq s : time.Parse time.layout_clock s = clockOf s.
Proof.
  unfold time.Parse, clockOf, clockFields, time.layout_clock, isDig.
  destruct (bytes s) as [|a [|b [|c [|d [|e [|x l]]]]]];
    parse_cbn; bool_cases; try reflexivity; z_cases; try reflexivity.
  all: digit_facts; try change (time.daysIn 1 0) with 31 in *;
    first [lia | congruence].
Qed.

Lemma quarterCheck_iff x points :
  wellFormed x ->
  quarterCheck x points = Int.add points 25 <-> multipleOfPow2 (-2) x.
Proof.
  intros Hw. rewrite <- (quarter_multiple x Hw). unfold quarterCheck.
  destruct (Float64.eqb _ _); split; auto; try discriminate.
  intros E. exfalso. symmetry in E. revert E. apply IntFacts.add_neq. lia.
Qed.

Lemma roundDollarPoints_50 total :
  roundDollarPoints total = 50
  <-> multipleOfPow2 0 (fst (strconv.ParseFloat total)).
Proof.
  rewrite <- roundDollar_whole by apply ParseFloat_wellFormed.
  unfold roundDollarPoints. destruct (Float64.eqb _ _); split; auto; discriminate.
Qed.

Lemma quarterPoints_25 total :
  quarterPoints total = 25
  <-> multipleOfPow2 (-2) (fst (strconv.ParseFloat total)).
Proof.
  rewrite <- quarter_multiple by apply ParseFloat_wellFormed.
  unfold quarterPoints. destruct (Float64.eqb _ _); split; auto; discriminate.
Qed.

Lemma total_points_cases total :
  (roundDollarPoints total = 50 /\ quarterPoints total = 25)
  \/ (roundDollarPoints total = 0 /\ quarterPoints total = 25)
  \/ (roundDollarPoints total = 0 /\ quarterPoints total = 0).
Proof.
  pose proof (roundDollarPoints_50 total) as H50.
  pose proof (quarterPoints_25 total) as H25.
  pose proof (whole_is_quarter_multiple (fst (strconv.ParseFloat total))) as Hi.
  unfold roundDollarPoints, quarterPoints in *.
  destruct (Float64.eqb (Mod _ c_1_00) c_0), (Float64.eqb (Mod _ c_0_25) c_0);
    auto.
  exfalso. assert (25 = 25 -> False); [|auto].
  intros _. pose proof (proj2 H25 (Hi (proj1 H50 eq_refl))). discriminate.
Qed.

(** X1: the item-count rule adds 5 points for every two items. On a running
    value [points] it gives [points + 5 * (n / 2)] in 64-bit arithmetic,
    where [n] is the number of items and the division rounds down: a receipt
    with fewer than two items earns nothing from it, two more items earn 5
    more, and in the score of a receipt whose date and time parse the rule
    is the term [5 * (n / 2)]. *)
Theorem item_count_rule (r : Receipt) :
  let n := Z.of_nat (length (Items r)) in
  (forall points,
      itemsCheck (Items r) points = Int.wrap (points + 5 * (n / 2)))
  /\ (forall points, Int.in_range points -> n < 2 ->
      itemsCheck (Items r) points = points)
  /\ (forall a b points,
      itemsCheck (a :: b :: Items r) points
      = Int.add (itemsCheck (Items r) points) 5)
  /\ (forall d t,
      time.Parse time.layout_date (PurchaseDate r) = Some d ->
      time.Parse time.layout_clock (PurchaseTime r) = Some t ->
      receiptPoints r
      = Int.wrap (5 * (n / 2)
                  + (retailerPoints (Retailer r)
                     + roundDollarPoints (Total r) + quarterPoints (Total r)
                     + descriptionPoints (Items r)
                     + datePoints d + timePoints t))).
Proof.
  intros n. split; [|split; [|split]].
  - intros points. apply itemsCheck_sum.
  - intros points Hp Hn. rewrite itemsCheck_sum. unfold itemCountPoints.
    fold n. rewrite Z.div_small by lia.
    rewrite Z.mul_0_r, Z.add_0_r. apply IntFacts.wrap_small, Hp.
  - intros a b points. rewrite !itemsCheck_sum, itemCountPoints_two.
    unfold Int.add. rewrite IntFacts.wrap_add_l. f_equal. lia.
  - intros d t Hd Ht. rewrite (receiptPoints_sum r d t Hd Ht). f_equal.
    unfold rulesSum, itemCountPoints. fold n. lia.
Qed.

Lemma item_count_rule_witness :
  Int.in_range 7
  /\ Z.of_nat (length (Items (oneItemReceipt "1.00"))) < 2
  /\ itemsCheck (Items (oneItemReceipt "1.00")) 7 = 7
  /\ time.Parse time.layout_date (PurchaseDate marketReceipt)
     = Some date_2022_03_20
  /\ time.Parse time.layout_clock (PurchaseTime marketReceipt)
     = Some (clock 14 33)
  /\ receiptPoints marketReceipt = 109.
Proof.
  assert (Hr : Int.in_range 7) by (vm_compute; split; discriminate).
  assert (Hn : Z.of_nat (length (Items (oneItemReceipt "1.00"))) < 2)
    by (simpl; lia).
  assert (Hd : time.Parse time.layout_date (PurchaseDate marketReceipt)
               = Some date_2022_03_20) by reflexivity.
  assert (Ht : time.Parse time.layout_clock (PurchaseTime marketReceipt)
               = Some (clock 14 33)) by reflexivity.
  split; [exact Hr|]. split; [exact Hn|]. split; [|split; [exact Hd|]].
  - destruct (item_count_rule (oneItemReceipt "1.00")) as (_ & H & _).
    exact (H 7 Hr Hn).
  - split; [exact Ht|].
    destruct (item_count_rule marketReceipt) as (_ & _ & _ & H).
    rewrite (H _ _ Hd Ht). vm_compute. reflexivity.
Defined.

(** X2: the quarter rule adds 25 points exactly when the parsed total, as a
    float64, is an integer multiple of 0.25 (a zero of either sign
    included), and leaves the points as they are otherwise; a total that
    parses to NaN or to an infinity earns nothing from the two total rules;
    in the score of a receipt whose date and time parse the rule is the
    term [quarterPoints]. *)
Theorem quarter_rule (r : Receipt) :
  let receiptTotal := fst (strconv.ParseFloat (Total r)) in
  (forall points,
      quarterCheck receiptTotal points = Int.add points 25
      <-> multipleOfPow2 (-2) receiptTotal)
  /\ (forall points,
      quarterCheck receiptTotal points = points
      <-> ~ multipleOfPow2 (-2) receiptTotal)
  /\ (receiptTotal = NaN \/ (exists sign, receiptTotal = Inf sign) ->
      forall points, totalChecks (Total r) points = points)
  /\ (forall d t,
      time.Parse time.layout_date (PurchaseDate r) = Some d ->
      time.Parse time.layout_clock (PurchaseTime r) = Some t ->
      receiptPoints r
      = Int.wrap (quarterPoints (Total r)
                  + (retailerPoints (Retailer r) + roundDollarPoints (Total r)
                     + itemCountPoints (Items r)
                     + descriptionPoints (Items r)
                     + datePoints d + timePoints t))).
Proof.
  intros receiptTotal.
  assert (Hw : wellFormed receiptTotal) by apply ParseFloat_wellFormed.
  split; [|split; [|split]].
  - intros points. apply quarterCheck_iff, Hw.
  - intros points.
    pose proof (quarterCheck_iff receiptTotal points Hw) as Hq. split.
    + intros E M. apply Hq in M. rewrite E in M. symmetry in M. revert M.
      apply IntFacts.add_neq. lia.
    + intros NM. unfold quarterCheck in *.
      destruct (Float64.eqb _ _); auto. exfalso. apply NM, Hq. reflexivity.
  - intros H points. unfold totalChecks. fold receiptTotal.
    destruct H as [->|[sign ->]]; reflexivity.
  - intros d t Hd Ht. rewrite (receiptPoints_sum r d t Hd Ht). f_equal.
    unfold rulesSum. lia.
Qed.

Lemma quarter_rule_witness :
  quarterCheck (fst (strconv.ParseFloat (Total (totalOnlyReceipt "1.25")))) 0
  = Int.add 0 25
  /\ multipleOfPow2 (-2)
       (fst (strconv.ParseFloat (Total (totalOnlyReceipt "1.25"))))
  /\ fst (strconv.ParseFloat (Total (totalOnlyReceipt "NaN"))) = NaN
  /\ totalChecks (Total (totalOnlyReceipt "NaN")) 7 = 7
  /\ time.Parse time.layout_date (PurchaseDate (totalOnlyReceipt "1.25"))
     = Some date_2022_01_02
  /\ time.Parse time.layout_clock (PurchaseTime (totalOnlyReceipt "1.25"))
     = Some (clock 13 1)
  /\ receiptPoints (totalOnlyReceipt "1.25") = 25.
Proof.
  assert (Hq : quarterCheck
                 (fst (strconv.ParseFloat (Total (totalOnlyReceipt "1.25")))) 0
               = Int.add 0 25) by (vm_compute; reflexivity).
  assert (Hn : fst (strconv.ParseFloat (Total (totalOnlyReceipt "NaN"))) = NaN)
    by (vm_compute; reflexivity).
  assert (Hd : time.Parse time.layout_date
                 (PurchaseDate (totalOnlyReceipt "1.25"))
               = Some date_2022_01_02) by reflexivity.
  assert (Ht : time.Parse time.layout_clock
                 (PurchaseTime (totalOnlyReceipt "1.25"))
               = Some (clock 13 1)) by reflexivity.
  split; [exact Hq|]. split; [|split; [exact Hn|split; [|split; [exact Hd|]]]].
  - destruct (quarter_rule (totalOnlyReceipt "1.25")) as (H & _).
    apply (H 0), Hq.
  - destruct (quarter_rule (totalOnlyReceipt "NaN")) as (_ & _ & H & _).
    apply H. left. exact Hn.
  - split; [exact Ht|].
    destruct (quarter_rule (totalOnlyReceipt "1.25")) as (_ & _ & _ & H).
    rewrite (H _ _ Hd Ht). vm_compute. reflexivity.
Defined.

Lemma wrap_shift_neq a c : 0 < c < 2 ^ 64 -> Int.wrap (a + c) <> Int.wrap a.
Proof.
  intros Hc. rewrite <- IntFacts.wrap_add_l. apply IntFacts.add_neq, Hc.
Qed.

(** X3: a total that earns the 50 points of the round-dollar rule earns the
    25 points of the quarter rule as well, so the two total rules together
    add 75, 25 or nothing to the points, and never 50 alone. *)
Theorem total_rules_together (total : string) (points : Z) :
  Int.in_range points ->
  (roundDollarPoints total = 50 -> quarterPoints total = 25)
  /\ (totalChecks total points = Int.add points 75
      \/ totalChecks total points = Int.add points 25
      \/ totalChecks total points = points)
  /\ totalChecks total points <> Int.add points 50.
Proof.
  intros Hp. rewrite totalChecks_sum by assumption.
  assert (H50 : Int.add points 50 <> points)
    by (apply IntFacts.add_neq; lia).
  destruct (total_points_cases total) as [[-> ->]|[[-> ->]|[-> ->]]].
  - split; [auto|]. split; [left; unfold Int.add; f_equal; lia|].
    unfold Int.add. apply wrap_shift_neq. lia.
  - split; [discriminate|]. split; [right; left; unfold Int.add; f_equal; lia|].
    unfold Int.add. rewrite Z.add_0_r. intros E. symmetry in E. revert E.
    replace (points + 50) with (points + 25 + 25) by lia.
    apply wrap_shift_neq. lia.
  - split; [discriminate|]. rewrite !Z.add_0_r.
    rewrite IntFacts.wrap_small by assumption. split; auto.
Qed.

Lemma total_rules_together_witness :
  Int.in_range 14
  /\ totalChecks "9.00" 14 <> Int.add 14 50
  /\ totalChecks "9.10" 14 <> Int.add 14 50.
Proof.
  assert (Hr : Int.in_range 14) by (vm_compute; split; discriminate).
  split; [exact Hr|]. split.
  - apply (total_rules_together "9.00" 14 Hr).
  - apply (total_rules_together "9.10" 14 Hr).
Defined.

Lemma daysIn_bounds m y : 28 <= time.daysIn m y <= 31.
Proof.
  unfold time.daysIn.
  destruct (m =? 2); [destruct (time.isLeap y); lia|].
  destruct ((m =? 4) || (m =? 6) || (m =? 9) || (m =? 11)); lia.
Qed.

Lemma dateFields_shape s y m d :
  dateFields s = Some (y, m, d) ->
  exists y1 y2 y3 y4 m1 m2 d1 d2,
    s = [y1; y2; y3; y4; "-"; m1; m2; "-"; d1; d2]%char
    /\ isDig y1 = true /\ isDig y2 = true /\ isDig y3 = true
    /\ isDig y4 = true /\ isDig m1 = true /\ isDig m2 = true
    /\ isDig d1 = true /\ isDig d2 = true
    /\ y = time.digit y1 * 1000 + time.digit y2 * 100
           + time.digit y3 * 10 + time.digit y4
    /\ m = time.digit m1 * 10 + time.digit m2
    /\ d = time.digit d1 * 10 + time.digit d2.
Proof.
  unfold dateFields.
  destruct s as [|y1 [|y2 [|y3 [|y4 [|h1 [|m1 [|m2 [|h2 [|d1 [|d2 [|x l]]]]]]]]]]];
    try discriminate.
  destruct (isDig y1) eqn:?, (isDig y2) eqn:?, (isDig y3) eqn:?,
    (isDig y4) eqn:?; try discriminate; cbn [andb].
  destruct (Ascii.eqb_spec h1 "-"); try discriminate; cbn [andb].
  destruct (isDig m1) eqn:?, (isDig m2) eqn:?; try discriminate; cbn [andb].
  destruct (Ascii.eqb_spec h2 "-"); try discriminate; cbn [andb].
  destruct (isDig d1) eqn:?, (isDig d2) eqn:?; try discriminate; cbn [andb].
  intros [= <- <- <-]. subst.
  exists y1, y2, y3, y4, m1, m2, d1, d2. repeat split; auto.
Qed.

Lemma dateOf_Some s t :
  dateOf s = Some t ->
  exists y m d,
    dateFields (bytes s) = Some (y, m, d)
    /\ 1 <= m <= 12 /\ 1 <= d <= time.daysIn m y
    /\ t = {| time.year := y; time.month := m; time.day := d;
              time.hour := 0; time.min := 0 |}.
Proof.
  unfold dateOf. destruct (dateFields (bytes s)) as [[[y m] d]|]; [|discriminate].
  destruct (Z.leb_spec 1 m), (Z.leb_spec m 12), (Z.leb_spec 1 d),
    (Z.leb_spec d (time.daysIn m y)); try discriminate.
  intros [= <-]. exists y, m, d. repeat split; auto.
Qed.

Lemma digit_parity c : Z.odd (time.digit c) = Z.odd (byte_val c).
Proof.
  destruct c as [[] [] [] [] [] [] [] []]; reflexivity.
Qed.

Lemma receiptPoints_date_failure r :
  time.Parse time.layout_date (PurchaseDate r) = None -> receiptPoints r = 0.
Proof. intros H. unfold receiptPoints. rewrite H. reflexivity. Qed.

Lemma receiptPoints_time_failure r :
  time.Parse time.layout_clock (PurchaseTime r) = None -> receiptPoints r = 0.
Proof.
  intros H. unfold receiptPoints. rewrite H.
  destruct (time.Parse time.layout_date _); reflexivity.
Qed.

(** X4: [time.Parse] with the layout "2006-01-02" accepts exactly the
    dates of ten bytes [dddd-dd-dd] whose month is 01 to 12 and whose day
    is 01 to the number of days of that month in that year. An accepted
    date has ten bytes, a year from 0 to 9999, a month from 1 to 12 and a
    day from 1 to 31 that exists in the month; a receipt whose date does not
    have ten bytes scores 0. *)
Theorem purchase_date_format (r : Receipt) :
  time.Parse time.layout_date (PurchaseDate r) = dateOf (PurchaseDate r)
  /\ (forall d,
      time.Parse time.layout_date (PurchaseDate r) = Some d ->
      len (bytes (PurchaseDate r)) = 10
      /\ 0 <= time.year d <= 9999
      /\ 1 <= time.month d <= 12
      /\ 1 <= time.Day d <= time.daysIn (time.month d) (time.year d)
      /\ time.Day d <= 31)
  /\ (len (bytes (PurchaseDate r)) <> 10 -> receiptPoints r = 0).
Proof.
  pose proof (Parse_date_eq (PurchaseDate r)) as E.
  assert (H : forall d,
      time.Parse time.layout_date (PurchaseDate r) = Some d ->
      len (bytes (PurchaseDate r)) = 10
      /\ 0 <= time.year d <= 9999
      /\ 1 <= time.month d <= 12
      /\ 1 <= time.Day d <= time.daysIn (time.month d) (time.year d)
      /\ time.Day d <= 31).
  { intros d Hd. rewrite E in Hd.
    apply dateOf_Some in Hd as (y & m & dd & Hf & Hm & Hdd & ->).
    apply dateFields_shape in Hf
      as (y1 & y2 & y3 & y4 & m1 & m2 & d1 & d2 & Hs & H1 & H2 & H3 & H4
          & _ & _ & _ & _ & Hy & _ & _).
    apply isDig_digit in H1, H2, H3, H4.
    pose proof (daysIn_bounds m y).
    rewrite Hs. cbn. repeat split; lia. }
  split; [exact E|]. split; [exact H|].
  intros Hlen. apply receiptPoints_date_failure.
  destruct (time.Parse time.layout_date (PurchaseDate r)) as [d|] eqn:Hd; auto.
  destruct (H d eq_refl) as [Hl _]. contradiction.
Qed.

Lemma purchase_date_format_witness :
  time.Parse time.layout_date (PurchaseDate (targetOn "2023-07-31"))
  = Some date_2023_07_31
  /\ len (bytes (PurchaseDate (targetOn "2023-07-31"))) = 10
  /\ len (bytes (PurchaseDate (targetOn "2023-7-31"))) <> 10
  /\ receiptPoints (targetOn "2023-7-31") = 0.
Proof.
  assert (Hd : time.Parse time.layout_date
                 (PurchaseDate (targetOn "2023-07-31"))
               = Some date_2023_07_31) by reflexivity.
  assert (Hl : len (bytes (PurchaseDate (targetOn "2023-7-31"))) <> 10)
    by (vm_compute; discriminate).
  split; [exact Hd|]. split; [|split; [exact Hl|]].
  - destruct (purchase_date_format (targetOn "2023-07-31")) as (_ & H & _).
    apply (H _ Hd).
  - destruct (purchase_date_format (targetOn "2023-7-31")) as (_ & _ & H).
    exact (H Hl).
Defined.

Lemma clockFields_shape s h m :
  clockFields s = Some (h, m) ->
  0 <= h <= 99 /\ 0 <= m <= 99 /\ (len s = 4 \/ len s = 5).
Proof.
  unfold clockFields.
  destruct s as [|a [|b [|c [|d [|e [|x l]]]]]]; try discriminate.
  - destruct (isDig a) eqn:Ha, (Ascii.eqb b ":"), (isDig c) eqn:Hc,
      (isDig d) eqn:Hd; try discriminate.
    intros [= <- <-]. apply isDig_digit in Ha, Hc, Hd.
    unfold len. simpl. lia.
  - destruct (isDig a) eqn:Ha, (isDig b) eqn:Hb, (Ascii.eqb c ":"),
      (isDig d) eqn:Hd, (isDig e) eqn:He; try discriminate.
    intros [= <- <-]. apply isDig_digit in Ha, Hb, Hd, He.
    unfold len. simpl. lia.
Qed.

(** X5: [time.Parse] with the layout "15:04" accepts exactly the times
    written [d:dd] or [dd:dd] whose hour is below 24 and whose minute is
    below 60. An accepted time has four or five bytes, an hour from 0 to 23
    and a minute from 0 to 59; a receipt whose time has neither four nor
    five bytes scores 0. *)
Theorem purchase_time_format (r : Receipt) :
  time.Parse time.layout_clock (PurchaseTime r) = clockOf (PurchaseTime r)
  /\ (forall t,
      time.Parse time.layout_clock (PurchaseTime r) = Some t ->
      (len (bytes (PurchaseTime r)) = 4 \/ len (bytes (PurchaseTime r)) = 5)
      /\ 0 <= time.Hour t <= 23
      /\ 0 <= time.Minute t <= 59)
  /\ (len (bytes (PurchaseTime r)) <> 4 ->
      len (bytes (PurchaseTime r)) <> 5 -> receiptPoints r = 0).
Proof.
  pose proof (Parse_clock_eq (PurchaseTime r)) as E.
  assert (H : forall t,
      time.Parse time.layout_clock (PurchaseTime r) = Some t ->
      (len (bytes (PurchaseTime r)) = 4 \/ len (bytes (PurchaseTime r)) = 5)
      /\ 0 <= time.Hour t <= 23
      /\ 0 <= time.Minute t <= 59).
  { intros t Ht. rewrite E in Ht. unfold clockOf in Ht.
    destruct (clockFields (bytes (PurchaseTime r))) as [[h m]|] eqn:Hf;
      [|discriminate].
    apply clockFields_shape in Hf as (Hh & Hm & Hl).
    destruct (Z.ltb_spec h 24), (Z.ltb_spec m 60); try discriminate.
    injection Ht as <-. cbn. repeat split; auto; lia. }
  split; [exact E|]. split; [exact H|].
  intros H4 H5. apply receiptPoints_time_failure.
  destruct (time.Parse time.layout_clock (PurchaseTime r)) as [t|] eqn:Ht; auto.
  destruct (H t eq_refl) as [[Hl|Hl] _]; contradiction.
Qed.

Lemma purchase_time_format_witness :
  time.Parse time.layout_clock (PurchaseTime (targetAt "9:05"))
  = Some (clock 9 5)
  /\ 0 <= time.Hour (clock 9 5) <= 23
  /\ len (bytes (PurchaseTime (targetAt "1:01pm"))) <> 4
  /\ len (bytes (PurchaseTime (targetAt "1:01pm"))) <> 5
  /\ receiptPoints (targetAt "1:01pm") = 0.
Proof.
  assert (Ht : time.Parse time.layout_clock (PurchaseTime (targetAt "9:05"))
               = Some (clock 9 5)) by reflexivity.
  assert (H4 : len (bytes (PurchaseTime (targetAt "1:01pm"))) <> 4)
    by (vm_compute; discriminate).
  assert (H5 : len (bytes (PurchaseTime (targetAt "1:01pm"))) <> 5)
    by (vm_compute; discriminate).
  split; [exact Ht|]. split; [|split; [exact H4|split; [exact H5|]]].
  - destruct (purchase_time_format (targetAt "9:05")) as (_ & H & _).
    apply (H _ Ht).
  - destruct (purchase_time_format (targetAt "1:01pm")) as (_ & _ & H).
    exact (H H4 H5).
Defined.

Lemma dateCheck_iff d points :
  (dateCheck d points = Int.add points 6 <-> Z.odd (time.Day d) = true)
  /\ (dateCheck d points = points <-> Z.odd (time.Day d) = false).
Proof.
  unfold dateCheck, Int.rem. rewrite <- Zquot.Zodd_rem.
  assert (Hneq : Int.add points 6 <> points) by (apply IntFacts.add_neq; lia).
  destruct (Z.odd (time.Day d)); repeat split; auto; try discriminate;
    intros E; exfalso; auto.
Qed.

Lemma parsed_day_last_byte s d :
  time.Parse time.layout_date s = Some d ->
  exists c, last (bytes s) = Some c
            /\ isDig c = true
            /\ Z.odd (time.Day d) = Z.odd (byte_val c).
Proof.
  rewrite Parse_date_eq. intros H.
  apply dateOf_Some in H as (y & m & dd & Hf & _ & _ & ->).
  apply dateFields_shape in Hf
    as (y1 & y2 & y3 & y4 & m1 & m2 & d1 & d2 & Hs & _ & _ & _ & _
        & _ & _ & _ & Hd2 & _ & _ & ->).
  exists d2. rewrite Hs. split; [reflexivity|]. split; [exact Hd2|].
  cbn [time.Day time.day]. rewrite <- digit_parity.
  rewrite Z.add_comm.
  replace (time.digit d1 * 10) with (2 * (time.digit d1 * 5)) by lia.
  apply Z.odd_add_mul_2.
Qed.

(** X6: for a receipt whose date parses, the date rule adds 6 points exactly
    when the day of the month is odd and nothing when it is even; the
    parity of the day is the parity of the last byte of the date; in the
    score the rule is the term 6 or 0; and replacing the date by any other
    accepted date whose day has the same parity leaves the score as it
    is: the year and the month earn nothing. *)
Theorem date_parity_rule (r : Receipt) (d : time.Time) :
  time.Parse time.layout_date (PurchaseDate r) = Some d ->
  (forall points,
      (dateCheck d points = Int.add points 6 <-> Z.odd (time.Day d) = true)
      /\ (dateCheck d points = points <-> Z.odd (time.Day d) = false))
  /\ (exists c, last (bytes (PurchaseDate r)) = Some c
                /\ Z.odd (time.Day d) = Z.odd (byte_val c))
  /\ (forall t,
      time.Parse time.layout_clock (PurchaseTime r) = Some t ->
      receiptPoints r
      = Int.wrap ((if Z.odd (time.Day d) then 6 else 0)
                  + (retailerPoints (Retailer r)
                     + roundDollarPoints (Total r) + quarterPoints (Total r)
                     + itemCountPoints (Items r)
                     + descriptionPoints (Items r) + timePoints t)))
  /\ (forall purchaseDate d',
      time.Parse time.layout_date purchaseDate = Some d' ->
      Z.odd (time.Day d') = Z.odd (time.Day d) ->
      receiptPoints {| Retailer := Retailer r; PurchaseDate := purchaseDate;
                       PurchaseTime := PurchaseTime r; Total := Total r;
                       Items := Items r |}
      = receiptPoints r).
Proof.
  intros Hd. split; [intros points; apply dateCheck_iff|].
  split.
  { destruct (parsed_day_last_byte _ _ Hd) as (c & Hc & _ & Hodd). eauto. }
  split.
  - intros t Ht. rewrite (receiptPoints_sum r d t Hd Ht). f_equal.
    unfold rulesSum, datePoints. lia.
  - intros purchaseDate d' Hd' Hodd.
    unfold receiptPoints. cbn [Retailer PurchaseDate PurchaseTime Total Items].
    rewrite Hd, Hd'.
    assert (E : forall p, dateCheck d' p = dateCheck d p).
    { intros p. unfold dateCheck, Int.rem.
      rewrite <- !Zquot.Zodd_rem, Hodd. reflexivity. }
    rewrite E. reflexivity.
Qed.

Lemma date_parity_rule_witness :
  time.Parse time.layout_date (PurchaseDate targetReceipt)
  = Some date_2022_01_01
  /\ dateCheck date_2022_01_01 37 = Int.add 37 6
  /\ time.Parse time.layout_date "2023-07-31" = Some date_2023_07_31
  /\ Z.odd (time.Day date_2023_07_31) = Z.odd (time.Day date_2022_01_01)
  /\ receiptPoints (targetOn "2023-07-31") = receiptPoints targetReceipt.
Proof.
  assert (Hd : time.Parse time.layout_date (PurchaseDate targetReceipt)
               = Some date_2022_01_01) by reflexivity.
  assert (Hd' : time.Parse time.layout_date "2023-07-31"
                = Some date_2023_07_31) by reflexivity.
  assert (Ho : Z.odd (time.Day date_2023_07_31)
               = Z.odd (time.Day date_2022_01_01)) by reflexivity.
  destruct (date_parity_rule targetReceipt date_2022_01_01 Hd)
    as (H1 & _ & _ & H4).
  split; [exact Hd|]. split; [|split; [exact Hd'|split; [exact Ho|]]].
  - apply (H1 37). reflexivity.
  - exact (H4 "2023-07-31" date_2023_07_31 Hd' Ho).
Defined.

Lemma descriptionPoints_perm items items' :
  Permutation items items' ->
  descriptionPoints items = descriptionPoints items'.
Proof.
  induction 1; simpl; lia.
Qed.

(** X7: the score does not depend on the order of the items: a receipt
    whose items are a permutation of the items of [r], all else equal,
    scores what [r] scores. *)
Theorem items_order_irrelevant (r : Receipt) (items' : list Item) :
  Permutation (Items r) items' ->
  receiptPoints {| Retailer := Retailer r; PurchaseDate := PurchaseDate r;
                   PurchaseTime := PurchaseTime r; Total := Total r;
                   Items := items' |}
  = receiptPoints r.
Proof.
  intros Hperm.
  set (r' := {| Retailer := Retailer r; PurchaseDate := PurchaseDate r;
                PurchaseTime := PurchaseTime r; Total := Total r;
                Items := items' |}).
  destruct (time.Parse time.layout_date (PurchaseDate r)) as [d|] eqn:Hd.
  2:{ rewrite !receiptPoints_date_failure; auto. }
  destruct (time.Parse time.layout_clock (PurchaseTime r)) as [t|] eqn:Ht.
  2:{ rewrite !receiptPoints_time_failure; auto. }
  rewrite (receiptPoints_sum r d t Hd Ht), (receiptPoints_sum r' d t Hd Ht).
  unfold rulesSum, itemCountPoints. cbn [r' Retailer Total Items].
  rewrite (descriptionPoints_perm _ _ Hperm).
  rewrite (Permutation_length Hperm). reflexivity.
Qed.

Lemma items_order_irrelevant_witness :
  Permutation (Items targetReceipt) targetSwapped
  /\ receiptPoints {| Retailer := Retailer targetReceipt;
                      PurchaseDate := PurchaseDate targetReceipt;
                      PurchaseTime := PurchaseTime targetReceipt;
                      Total := Total targetReceipt;
                      Items := targetSwapped |}
     = receiptPoints targetReceipt.
Proof.
  assert (Hp : Permutation (Items targetReceipt) targetSwapped)
    by apply perm_swap.
  split; [exact Hp|].
  exact (items_order_irrelevant targetReceipt targetSwapped Hp).
Defined.

Section TrimPadding.
Import strings.

Lemma trimLeftByte_repeat c n s :
  trimLeftByte (repeat c n ++ s) c = trimLeftByte s c.
Proof.
  induction n as [|n IH]; simpl; [reflexivity|].
  rewrite Ascii.eqb_refl. exact IH.
Qed.

Lemma rev_repeat (c : ascii) n : rev (repeat c n) = repeat c n.
Proof.
  induction n as [|n IH]; simpl; [reflexivity|].
  rewrite IH. symmetry. apply repeat_cons.
Qed.

Lemma trimRightByte_repeat c m s :
  trimRightByte (s ++ repeat c m) c = trimRightByte s c.
Proof.
  unfold trimRightByte.
  rewrite rev_app_distr, rev_repeat, trimLeftByte_repeat. reflexivity.
Qed.

Lemma trimLeftByte_snoc l x c :
  trimLeftByte (l ++ [x]) c
  = match trimLeftByte l c with
    | [] => if Ascii.eqb x c then [] else [x]
    | t => t ++ [x]
    end.
Proof.
  induction l as [|y l IH]; simpl; [reflexivity|].
  destruct (Ascii.eqb y c); [exact IH | reflexivity].
Qed.

Lemma trimRightByte_cons x s c :
  trimRightByte (x :: s) c
  = match trimRightByte s c with
    | [] => if Ascii.eqb x c then [] else [x]
    | t => x :: t
    end.
Proof.
  unfold trimRightByte. simpl rev. rewrite trimLeftByte_snoc.
  destruct (trimLeftByte (rev s) c) as [|y t] eqn:E; simpl.
  - destruct (Ascii.eqb x c); reflexivity.
  - rewrite rev_app_distr. simpl.
    destruct (rev t ++ [y]) eqn:E'; [|reflexivity].
    destruct (rev t); discriminate.
Qed.

(** Trimming the left end and trimming the right end commute. *)
Lemma trim_commute s c :
  trimLeftByte (trimRightByte s c) c = trimRightByte (trimLeftByte s c) c.
Proof.
  induction s as [|x s IH]; [reflexivity|].
  rewrite trimRightByte_cons. cbn [trimLeftByte].
  destruct (Ascii.eqb x c) eqn:Ex.
  - rewrite <- IH. destruct (trimRightByte s c) as [|y t]; [reflexivity|].
    cbn [trimLeftByte]. rewrite Ex. reflexivity.
  - rewrite trimRightByte_cons.
    destruct (trimRightByte s c); cbn [trimLeftByte]; rewrite Ex;
      reflexivity.
Qed.

Lemma Trim_padding c n m s :
  Trim (repeat c n ++ s ++ repeat c m) c = Trim s c.
Proof.
  unfold Trim. rewrite app_assoc, trimRightByte_repeat.
  rewrite trim_commute, trimLeftByte_repeat, <- trim_commute. reflexivity.
Qed.

End TrimPadding.

Lemma descriptionStep_padded it it' p :
  paddedItem it it' -> descriptionStep p it' = descriptionStep p it.
Proof.
  intros [HP (n & m & Hd)]. unfold descriptionStep.
  rewrite Hd, Trim_padding, HP. reflexivity.
Qed.

Lemma descriptionCheck_padded items items' :
  Forall2 paddedItem items items' ->
  forall p, descriptionCheck items' p = descriptionCheck items p.
Proof.
  unfold descriptionCheck.
  induction 1 as [|it it' items items' H _ IH]; intros p; simpl;
    [reflexivity|].
  rewrite (descriptionStep_padded it it' p H). apply IH.
Qed.

(** X8: spaces before and after the description of an item do not change
    what the item earns: a receipt whose items are the items of [r] with
    spaces added around the descriptions, prices kept, scores what [r]
    scores, and each padded item moves the points as the item itself
    does. *)
Theorem description_padding_irrelevant (r : Receipt) (items' : list Item) :
  Forall2 paddedItem (Items r) items' ->
  receiptPoints {| Retailer := Retailer r; PurchaseDate := PurchaseDate r;
                   PurchaseTime := PurchaseTime r; Total := Total r;
                   Items := items' |}
  = receiptPoints r
  /\ Forall2 (fun it it' => forall points,
                  descriptionStep points it' = descriptionStep points it)
       (Items r) items'.
Proof.
  intros H. split.
  - unfold receiptPoints. cbn [Retailer PurchaseDate PurchaseTime Total Items].
    rewrite (descriptionCheck_padded _ _ H).
    unfold itemsCheck. rewrite <- (Forall2_length _ _ _ H). reflexivity.
  - eapply Forall2_impl; [exact H|]. intros it it' Hp points.
    apply descriptionStep_padded, Hp.
Qed.

Lemma description_padding_irrelevant_witness :
  Forall2 paddedItem (Items targetReceipt) targetPadded
  /\ receiptPoints {| Retailer := Retailer targetReceipt;
                      PurchaseDate := PurchaseDate targetReceipt;
                      PurchaseTime := PurchaseTime targetReceipt;
                      Total := Total targetReceipt;
                      Items := targetPadded |}
     = receiptPoints targetReceipt.
Proof.
  assert (Hp : Forall2 paddedItem (Items targetReceipt) targetPadded).
  { constructor; [|constructor; [|constructor]].
    - split; [reflexivity|]. exists 2%nat, 1%nat. reflexivity.
    - split; [reflexivity|]. exists 0%nat, 3%nat. reflexivity. }
  split; [exact Hp|].
  apply (description_padding_irrelevant targetReceipt targetPadded Hp).
Defined.

Lemma bytes_app s1 s2 : bytes (s1 ++ s2)%string = bytes s1 ++ bytes s2.
Proof.
  unfold bytes. induction s1 as [|c s1 IH]; simpl; [reflexivity|].
  f_equal. exact IH.
Qed.

(** X9: the points of a retailer name are counted byte by byte: the name
    [s1 ++ s2] earns what [s1] and [s2] earn together, the retailer loop
    over [s1 ++ s2] is the loop over [s1] followed by the loop over [s2],
    two names with the same bytes in another order earn the same, and a
    name never earns more points than it has bytes. *)
Theorem retailer_points_additive (s1 s2 : string) :
  retailerPoints (s1 ++ s2) = retailerPoints s1 + retailerPoints s2
  /\ (forall points, Int.in_range points ->
        retailerCheck (s1 ++ s2) points
        = retailerCheck s2 (retailerCheck s1 points))
  /\ (Permutation (bytes s1) (bytes s2) ->
        retailerPoints s1 = retailerPoints s2)
  /\ 0 <= retailerPoints s1 <= len (bytes s1).
Proof.
  assert (Happ : retailerPoints (s1 ++ s2)
                 = retailerPoints s1 + retailerPoints s2).
  { rewrite !retailerPoints_bytes, bytes_app, filter_app, length_app. lia. }
  split; [exact Happ|]. split; [|split].
  - intros points Hp.
    rewrite !retailerCheck_sum by auto using retailerCheck_in_range.
    rewrite Happ, IntFacts.wrap_add_l. f_equal. lia.
  - intros Hperm. rewrite !retailerPoints_bytes. rewrite Hperm. reflexivity.
  - apply retailerPoints_bound.
Qed.

Lemma retailer_points_additive_witness :
  Int.in_range 0
  /\ retailerCheck ("M&M" ++ " Corner Market") 0
     = retailerCheck " Corner Market" (retailerCheck "M&M" 0)
  /\ Permutation (bytes "M&M") (bytes "&MM")
  /\ retailerPoints "M&M" = retailerPoints "&MM".
Proof.
  assert (Hr : Int.in_range 0) by (vm_compute; split; discriminate).
  assert (Hp : Permutation (bytes "M&M") (bytes "&MM")) by apply perm_swap.
  split; [exact Hr|]. split; [|split; [exact Hp|]].
  - destruct (retailer_points_additive "M&M" " Corner Market") as (_ & H & _).
    exact (H 0 Hr).
  - destruct (retailer_points_additive "M&M" "&MM") as (_ & _ & H & _).
    exact (H Hp).
Defined.

Section ServingFacts.
Variable uuids : nat -> string.

Lemma handle_cases fuel sv req resp sv' :
  handle uuids fuel sv req = Some (resp, sv') ->
  (createdId resp = None /\ sv' = sv)
  \/ (exists id r,
        resp = {| status := StatusCreated; json := H_id id |}
        /\ req = PostProcess (inr r)
        /\ receipts sv !! id = None
        /\ receipts sv' = <[id := r]> (receipts sv)).
Proof.
  destruct req as [receiptId|[err|r]]; simpl.
  - intros [= <- <-]. left. split; [|reflexivity].
    unfold getReceiptPoints. destruct (receipts sv !! receiptId); reflexivity.
  - intros [= <- <-]. left. split; reflexivity.
  - intros H. right.
    destruct (postReceipt_spec uuids _ _ _ _ _ H) as (id & -> & Hf & Hs).
    exists id, r. auto.
Qed.

Lemma createdIds_cons resp resps :
  createdIds (resp :: resps)
  = match createdId resp with
    | Some id => id :: createdIds resps
    | None => createdIds resps
    end.
Proof. reflexivity. Qed.

Lemma serve_spec fuel reqs : forall sv resps sv',
  serve uuids fuel sv reqs = Some (resps, sv') ->
  length resps = length reqs
  /\ (forall id x, receipts sv !! id = Some x -> receipts sv' !! id = Some x)
  /\ NoDup (createdIds resps)
  /\ Forall (fun id => receipts sv !! id = None) (createdIds resps)
  /\ dom (receipts sv') = dom (receipts sv) ∪ list_to_set (createdIds resps).
Proof.
  induction reqs as [|req reqs IH]; intros sv resps sv'; cbn [serve].
  - intros [= <- <-]. repeat split; auto; try constructor.
    simpl. rewrite (right_id_L ∅ (∪)). reflexivity.
  - destruct (handle uuids fuel sv req) as [[resp sv1]|] eqn:E;
      [|discriminate].
    destruct (serve uuids fuel sv1 reqs) as [[resps1 sv2]|] eqn:E2;
      [|discriminate].
    intros [= <- <-].
    destruct (IH _ _ _ E2) as (Hlen & Hkeep & Hnd & Hall & Hdom).
    destruct (handle_cases _ _ _ _ _ E)
      as [[Hc ->]|(id & r & -> & -> & Hfresh & Hsv1)].
    + rewrite createdIds_cons, Hc.
      repeat split; auto. simpl. congruence.
    + assert (Hid : receipts sv1 !! id = Some r)
        by (rewrite Hsv1; apply lookup_insert_eq).
      rewrite createdIds_cons. cbn [createdId json].
      repeat split.
      * simpl. congruence.
      * intros id' x Hx. apply Hkeep. rewrite Hsv1.
        rewrite lookup_insert_ne; [exact Hx|]. congruence.
      * constructor; [|exact Hnd].
        intros Hin. rewrite Forall_forall in Hall.
        specialize (Hall _ Hin). congruence.
      * constructor; [exact Hfresh|].
        eapply Forall_impl; [exact Hall|]. intros id' H'. simpl in H'.
        rewrite Hsv1 in H'. apply lookup_insert_None in H'. tauto.
      * rewrite Hdom, Hsv1, dom_insert_L. simpl.
        rewrite (comm_L (∪) {[id]} (dom (receipts sv))).
        rewrite (assoc_L (∪)). reflexivity.
Qed.

Lemma serve_app fuel reqs1 : forall reqs2 sv resps1 sv1 resps2 sv2,
  serve uuids fuel sv reqs1 = Some (resps1, sv1) ->
  serve uuids fuel sv1 reqs2 = Some (resps2, sv2) ->
  serve uuids fuel sv (reqs1 ++ reqs2) = Some (resps1 ++ resps2, sv2).
Proof.
  induction reqs1 as [|req reqs1 IH]; intros reqs2 sv resps1 sv1 resps2 sv2;
    cbn [serve app].
  - intros [= <- <-] H. exact H.
  - destruct (handle uuids fuel sv req) as [[resp sv0]|]; [|discriminate].
    destruct (serve uuids fuel sv0 reqs1) as [[resps0 sv0']|] eqn:E;
      [|discriminate].
    intros [= <- <-] H2. rewrite (IH _ _ _ _ _ _ E H2). reflexivity.
Qed.

End ServingFacts.



(** X11: the collection grows by exactly the identifiers handed out. After
    any requests handled one after the other, the identifiers of the
    collection are those of the initial collection and those of the 201
    answers; the identifiers handed out are pairwise distinct and new to
    the initial collection, so the collection has grown by their number;
    and an identifier that was unknown at the start and was not handed out
    is still answered 404 "Receipt not found". *)
Theorem store_keys_are_created_ids (uuids : nat -> string) (fuel : nat)
  (sv : server) (reqs : list request) (resps : list response) (sv' : server) :
  serve uuids fuel sv reqs = Some (resps, sv') ->
  dom (receipts sv') = dom (receipts sv) ∪ list_to_set (createdIds resps)
  /\ NoDup (createdIds resps)
  /\ Forall (fun id => receipts sv !! id = None) (createdIds resps)
  /\ size (receipts sv') = (size (receipts sv) + length (createdIds resps))%nat
  /\ (forall id, receipts sv !! id = None -> id ∉ createdIds resps ->
        getReceiptPoints (receipts sv') id
        = {| status := StatusNotFound;
             json := H_message "Receipt not found" |}).
Proof.
  intros H. destruct (serve_spec uuids fuel reqs sv resps sv' H)
    as (_ & _ & Hnd & Hall & Hdom).
  split; [exact Hdom|]. split; [exact Hnd|]. split; [exact Hall|]. split.
  - rewrite <- !size_dom, Hdom.
    rewrite size_union.
    + rewrite size_list_to_set by exact Hnd. reflexivity.
    + intros id Hin1 Hin2. apply elem_of_list_to_set in Hin2.
      rewrite Forall_forall in Hall. specialize (Hall id Hin2).
      apply elem_of_dom in Hin1 as [x Hx]. congruence.
  - intros id Hnone Hnot. unfold getReceiptPoints.
    assert (Hn : receipts sv' !! id = None).
    { apply not_elem_of_dom. rewrite Hdom.
      apply not_elem_of_union. split.
      - apply not_elem_of_dom. exact Hnone.
      - rewrite elem_of_list_to_set. exact Hnot. }
    rewrite Hn. reflexivity.
Qed.

Lemma store_keys_are_created_ids_witness :
  serve repeatingUuids 3 targetServer sampleTraffic
  = Some (sampleAnswers, marketServer)
  /\ createdIds sampleAnswers = ["adb6b560-0eef-42bc-9d16-df48f30e89b2"]
  /\ size (receipts marketServer) = 2%nat
  /\ receipts targetServer !! "00000000-0000-0000-0000-000000000000" = None
  /\ getReceiptPoints (receipts marketServer)
       "00000000-0000-0000-0000-000000000000"
     = {| status := StatusNotFound; json := H_message "Receipt not found" |}.
Proof.
  assert (E : serve repeatingUuids 3 targetServer sampleTraffic
              = Some (sampleAnswers, marketServer))
    by (vm_compute; reflexivity).
  assert (Hc : createdIds sampleAnswers
               = ["adb6b560-0eef-42bc-9d16-df48f30e89b2"]) by reflexivity.
  assert (Hx : receipts targetServer !! "00000000-0000-0000-0000-000000000000"
               = None) by reflexivity.
  destruct (store_keys_are_created_ids _ _ _ _ _ _ E)
    as (_ & _ & _ & Hsize & Hnot).
  split; [exact E|]. split; [exact Hc|]. split; [|split; [exact Hx|]].
  - rewrite Hsize. reflexivity.
  - apply (Hnot _ Hx). rewrite Hc. intros Hin.
    apply list_elem_of_singleton in Hin. discriminate.
Defined.

(** X12: what is submitted can be queried, whatever is handled in between.
    If a submission of [r] succeeds and any further requests are handled
    after it, the submission was answered 201 with an identifier that was
    new and that no later submission is given again, and a query of that
    identifier at the end of the run answers 200 with [receiptPoints r]. *)
Theorem submit_then_query (uuids : nat -> string) (fuel : nat)
  (sv : server) (r : Receipt) (resp : response) (sv1 : server)
  (reqs : list request) (resps : list response) (sv2 : server) :
  postReceipt uuids fuel sv (inr r) = Some (resp, sv1) ->
  serve uuids fuel sv1 reqs = Some (resps, sv2) ->
  exists id,
    resp = {| status := StatusCreated; json := H_id id |}
    /\ receipts sv !! id = None
    /\ (id ∉ createdIds resps)
    /\ serve uuids fuel sv (PostProcess (inr r) :: reqs ++ [GetPoints id])
       = Some (resp :: (resps
                        ++ [{| status := StatusOK;
                               json := H_points (receiptPoints r) |}]), sv2).
Proof.
  intros Hpost Hserve.
  destruct (postReceipt_spec uuids _ _ _ _ _ Hpost) as (id & -> & Hfresh & Hs1).
  assert (Hid : receipts sv1 !! id = Some r)
    by (rewrite Hs1; apply lookup_insert_eq).
  destruct (serve_spec uuids fuel reqs sv1 resps sv2 Hserve)
    as (_ & Hkeep & _ & Hall & _).
  exists id. split; [reflexivity|]. split; [exact Hfresh|]. split.
  - intros Hin. rewrite Forall_forall in Hall. specialize (Hall id Hin).
    congruence.
  - cbn [serve handle]. rewrite Hpost.
    erewrite serve_app; [reflexivity | exact Hserve |].
    cbn [serve handle]. unfold getReceiptPoints.
    rewrite (Hkeep id r Hid). reflexivity.
Qed.

Lemma submit_then_query_witness :
  postReceipt repeatingUuids 3 targetServer (inr marketReceipt)
  = Some ({| status := StatusCreated;
             json := H_id "adb6b560-0eef-42bc-9d16-df48f30e89b2" |},
          marketServer)
  /\ serve repeatingUuids 3 marketServer
       [PostProcess (inl "EOF");
        GetPoints "7fb1377b-b223-49d9-a31a-5a02701dd310"]
     = Some ([{| status := StatusBadRequest; json := H_message "EOF" |};
              {| status := StatusOK; json := H_points 43 |}], marketServer)
  /\ exists id,
       serve repeatingUuids 3 targetServer
         (PostProcess (inr marketReceipt)
          :: [PostProcess (inl "EOF");
              GetPoints "7fb1377b-b223-49d9-a31a-5a02701dd310"]
             ++ [GetPoints id])
       = Some ({| status := StatusCreated; json := H_id id |}
               :: ([{| status := StatusBadRequest; json := H_message "EOF" |};
                    {| status := StatusOK; json := H_points 43 |}]
                   ++ [{| status := StatusOK;
                          json := H_points (receiptPoints marketReceipt) |}]),
               marketServer).
Proof.
  assert (E1 : postReceipt repeatingUuids 3 targetServer (inr marketReceipt)
               = Some ({| status := StatusCreated;
                          json := H_id "adb6b560-0eef-42bc-9d16-df48f30e89b2" |},
                       marketServer)) by (vm_compute; reflexivity).
  assert (E2 : serve repeatingUuids 3 marketServer
                 [PostProcess (inl "EOF");
                  GetPoints "7fb1377b-b223-49d9-a31a-5a02701dd310"]
               = Some ([{| status := StatusBadRequest;
                           json := H_message "EOF" |};
                        {| status := StatusOK; json := H_points 43 |}],
                       marketServer)) by (vm_compute; reflexivity).
  split; [exact E1|]. split; [exact E2|].
  destruct (submit_then_query _ _ _ _ _ _ _ _ _ E1 E2)
    as (id & Hid & _ & _ & H).
  injection Hid as <-. eexists. exact H.
Defined.

(** X13: queries and submissions whose body does not decode always return
    and never change the collection: any sequence of them is handled to its
    end, whatever identifiers the generator would give, and leaves the
    server as it was; none of the answers is a 201 and no identifier is
    handed out. *)
Theorem reads_and_rejections_keep_store (uuids : nat -> string) (fuel : nat)
  (sv : server) (reqs : list request) :
  forallb readOnly reqs = true ->
  exists resps,
    serve uuids fuel sv reqs = Some (resps, sv)
    /\ length resps = length reqs
    /\ createdIds resps = []
    /\ Forall (fun resp => status resp <> StatusCreated) resps.
Proof.
  induction reqs as [|req reqs IH]; cbn [forallb serve].
  - intros _. exists []. repeat split; constructor.
  - intros H. apply andb_prop in H as [Hreq Hreqs].
    destruct (IH Hreqs) as (resps & Hs & Hlen & Hc & Hst).
    destruct req as [receiptId|[err|r]]; [| |discriminate];
      cbn [handle postReceipt]; rewrite Hs.
    + exists (getReceiptPoints (receipts sv) receiptId :: resps).
      split; [reflexivity|]. split; [simpl; congruence|].
      unfold getReceiptPoints.
      destruct (receipts sv !! receiptId); (split;
        [rewrite createdIds_cons; exact Hc
        |constructor; [discriminate | exact Hst]]).
    + eexists. split; [reflexivity|]. split; [simpl; congruence|].
      split; [rewrite createdIds_cons; exact Hc|].
      constructor; [discriminate | exact Hst].
Qed.

Lemma reads_and_rejections_keep_store_witness :
  forallb readOnly
    [GetPoints "7fb1377b-b223-49d9-a31a-5a02701dd310"; PostProcess (inl "EOF")]
  = true
  /\ exists resps,
       serve repeatingUuids 0 targetServer
         [GetPoints "7fb1377b-b223-49d9-a31a-5a02701dd310";
          PostProcess (inl "EOF")]
       = Some (resps, targetServer)
       /\ createdIds resps = [].
Proof.
  assert (Hr : forallb readOnly
                 [GetPoints "7fb1377b-b223-49d9-a31a-5a02701dd310";
                  PostProcess (inl "EOF")] = true) by reflexivity.
  split; [exact Hr|].
  destruct (reads_and_rejections_keep_store repeatingUuids 0 targetServer _ Hr)
    as (resps & Hs & _ & Hc & _).
  exists resps. split; [exact Hs | exact Hc].
Defined.

(** X14: a submission is stored under the first identifier drawn that is not
    a key of the collection. If the draws [drawn sv], ..., [j - 1] are all
    keys of the collection and draw [j] is not, then [postReceipt] returns,
    answers 201 with draw [j], stores the receipt under it leaving the rest
    of the collection as it is, and has consumed the draws up to [j]. *)
Theorem first_fresh_draw (uuids : nat -> string) (fuel : nat) (sv : server)
  (r : Receipt) (j : nat) :
  (drawn sv <= j)%nat ->
  (forall i, (drawn sv <= i < j)%nat -> is_Some (receipts sv !! uuids i)) ->
  receipts sv !! uuids j = None ->
  (j - drawn sv < fuel)%nat ->
  postReceipt uuids fuel sv (inr r)
  = Some ({| status := StatusCreated; json := H_id (uuids j) |},
          {| receipts := <[uuids j := r]> (receipts sv); drawn := S j |}).
Proof.
  intros Hle Hbusy Hfree Hfuel. unfold postReceipt.
  destruct (freshGuid_terminates uuids (receipts sv) (drawn sv) j fuel
              Hle Hfree Hfuel) as (id & k' & E).
  rewrite E.
  apply freshGuid_spec in E as (Hnone & j' & Hj' & -> & -> & Hbusy').
  assert (j' = j) as ->; [|reflexivity].
  destruct (Nat.lt_total j' j) as [Hlt|[Heq|Hgt]]; [| exact Heq |].
  - destruct (Hbusy j' (conj Hj' Hlt)) as [x Hx]. congruence.
  - destruct (Hbusy' j (conj Hle Hgt)) as [x Hx]. congruence.
Qed.

Lemma first_fresh_draw_witness :
  (drawn targetServer <= 2)%nat
  /\ receipts targetServer !! repeatingUuids 2 = None
  /\ (2 - drawn targetServer < 3)%nat
  /\ postReceipt repeatingUuids 3 targetServer (inr marketReceipt)
     = Some ({| status := StatusCreated;
                json := H_id "adb6b560-0eef-42bc-9d16-df48f30e89b2" |},
             marketServer).
Proof.
  assert (Hle : (drawn targetServer <= 2)%nat) by (simpl; lia).
  assert (Hbusy : forall i, (drawn targetServer <= i < 2)%nat ->
                    is_Some (receipts targetServer !! repeatingUuids i)).
  { intros [|[|i]] Hi; [eexists; reflexivity | eexists; reflexivity |].
    simpl in Hi. lia. }
  assert (Hfree : receipts targetServer !! repeatingUuids 2 = None)
    by reflexivity.
  assert (Hfuel : (2 - drawn targetServer < 3)%nat) by (simpl; lia).
  split; [exact Hle|]. split; [exact Hfree|]. split; [exact Hfuel|].
  exact (first_fresh_draw repeatingUuids 3 targetServer marketReceipt 2
           Hle Hbusy Hfree Hfuel).
Defined.
